(** * CampGuard: AC-IN limiting for a power station behind a current-limited switch

    A shallow embedding of [CampGuard.js] and the properties of its control
    logic: the overcurrent latch, the rolling peak window, the restore policy,
    the optimizer, the throttled command gateway, the watchdogs and the
    telemetry ingestor.

    Modelling conventions.
    - JavaScript numbers that carry a power, a voltage or a current are exact
      rationals ([Q]); [NaN] and the infinities are outside the model.
      Timestamps are whole seconds ([Z]), as [nowS] floors the clock.
    - The script's global [S] is an explicit [State] record threaded through a
      small monad; what the script asks of its runtime ([MQTT.publish],
      [Shelly.call], ...) is appended to a list of [Effect]s.
    - Handlers run to completion, so one handler invocation reads one clock
      value; asynchronous callbacks are handlers of their own.
    - [print]-based logging ([log], [dbg]) has no effect on the state and is
      left out. *)

From Stdlib Require Import ZArith QArith Qround Qabs Bool List String Lia Lqa.
Import ListNotations.
Open Scope string_scope.
Open Scope list_scope.

(** ** JavaScript values and arithmetic *)

(** Values that reach the script from the runtime: event objects, RPC results
    and parsed JSON.  An object is a list of bindings; a property is read from
    the first binding of its name. *)
#[local] Unset Elimination Schemes.
Inductive JsVal : Type :=
| JUndefined
| JNull
| JBool (b : bool)
| JNum (x : Q)
| JStr (s : string)
| JArr (xs : list JsVal)
| JObj (fields : list (string * JsVal)).
#[local] Set Elimination Schemes.

(** [!!v] *)
Definition truthy (v : JsVal) : bool :=
  match v with
  | JUndefined | JNull => false
  | JBool b => b
  | JNum x => negb (Qeq_bool x 0)
  | JStr s => negb (s =? "")
  | JArr _ | JObj _ => true
  end.

Fixpoint lookup (k : string) (fs : list (string * JsVal)) : JsVal :=
  match fs with
  | [] => JUndefined
  | (k', v) :: rest => if k' =? k then v else lookup k rest
  end.

(** [v.k] for one of the property names the script reads; [None] is the
    [TypeError] raised on [undefined] and [null]. *)
Definition getProp (v : JsVal) (k : string) : option JsVal :=
  match v with
  | JUndefined | JNull => None
  | JObj fs => Some (lookup k fs)
  | _ => Some JUndefined
  end.

(** [v === "s"] *)
Definition isStr (v : JsVal) (s : string) : bool :=
  match v with
  | JStr s' => s' =? s
  | _ => false
  end.

Definition ltQ (a b : Q) : bool := negb (Qle_bool b a).
Definition gtQ (a b : Q) : bool := ltQ b a.
Definition geQ (a b : Q) : bool := Qle_bool b a.

Definition Math_floor (x : Q) : Q := inject_Z (Qfloor x).
(** [Math.round] rounds to the nearest integer, halves upwards. *)
Definition Math_round (x : Q) : Q := inject_Z (Qfloor (x + (1 # 2))).
Definition Math_abs (x : Q) : Q := Qabs x.
Definition Math_max (a b : Q) : Q := if Qle_bool a b then b else a.

(** ** Configuration *)

Record Config : Type := mkConfig {
  name : string;
  ecoPrefix : string;
  initChargeW : Q;
  minChargeW : Q;
  maxChargeW : Q;
  safetyBufferW : Q;
  quantW : Q;
  minDeltaW : Q;
  windowSec : Z;
  optimizeEverySec : Z;
  restoreDelaySec : Z;
  mqttTimeoutSec : Z;
  eventTimeoutSec : Z;
  quotaMaxAgeSec : Z;
  setThrottleSec : Z;
  debugMode : bool
}.

Definition CFG : Config :=
  {| name := "CampGuard";
     ecoPrefix := "ecoflow/";
     initChargeW := 400;
     minChargeW := 400;
     maxChargeW := 2400;
     safetyBufferW := 100;
     quantW := 10;
     minDeltaW := 20;
     windowSec := 10;
     optimizeEverySec := 10;
     restoreDelaySec := 10;
     mqttTimeoutSec := 30;
     eventTimeoutSec := 30;
     quotaMaxAgeSec := 10;
     setThrottleSec := 5;
     debugMode := false |}.

(** ** State *)

Definition Handle : Type := Z.

Record Measurement : Type := mkMeasurement { ts : Z; power : Q }.

Record State : Type := mkState {
  (* Shelly *)
  on : bool;
  oc : bool;
  voltageV : Q;
  currentLimitA : Q;
  lastShellyEvtTS : Z;
  ocSinceTS : Z;
  (* rolling window *)
  measurements : list Measurement;
  maxP10s : Q;
  lastTrackedPower : Q;
  lastTrackedTS : Z;
  (* EcoFlow *)
  efAcOutW : Q;
  efStandbyW : Q;
  efChargeW : Q;
  lastQuotaTS : Z;
  (* command pacing *)
  lastSetTS : Z;
  lastOptTS : Z;
  lastRestoreTryTS : Z;
  (* handler ids and timer *)
  shellyH : option Handle;
  mqttQuotaH : option Handle;
  mqttReplyH : option Handle;
  heartbeat : option Handle
}.

(** The initial value of the script's [S]. *)
Definition S0 : State :=
  {| on := false; oc := false; voltageV := 230; currentLimitA := 6;
     lastShellyEvtTS := 0; ocSinceTS := 0;
     measurements := []; maxP10s := 0; lastTrackedPower := -1;
     lastTrackedTS := 0;
     efAcOutW := 0; efStandbyW := 20; efChargeW := 400; lastQuotaTS := 0;
     lastSetTS := 0; lastOptTS := 0; lastRestoreTryTS := 0;
     shellyH := None; mqttQuotaH := None; mqttReplyH := None;
     heartbeat := None |}.

(** Field assignments [S.f = v]. *)
Definition set_on (v : bool) (s : State) : State :=
  {| on := v; oc := oc s; voltageV := voltageV s;
     currentLimitA := currentLimitA s; lastShellyEvtTS := lastShellyEvtTS s;
     ocSinceTS := ocSinceTS s; measurements := measurements s;
     maxP10s := maxP10s s; lastTrackedPower := lastTrackedPower s;
     lastTrackedTS := lastTrackedTS s; efAcOutW := efAcOutW s;
     efStandbyW := efStandbyW s; efChargeW := efChargeW s;
     lastQuotaTS := lastQuotaTS s; lastSetTS := lastSetTS s;
     lastOptTS := lastOptTS s; lastRestoreTryTS := lastRestoreTryTS s;
     shellyH := shellyH s; mqttQuotaH := mqttQuotaH s;
     mqttReplyH := mqttReplyH s; heartbeat := heartbeat s |}.

Definition set_oc (v : bool) (s : State) : State :=
  {| on := on s; oc := v; voltageV := voltageV s;
     currentLimitA := currentLimitA s; lastShellyEvtTS := lastShellyEvtTS s;
     ocSinceTS := ocSinceTS s; measurements := measurements s;
     maxP10s := maxP10s s; lastTrackedPower := lastTrackedPower s;
     lastTrackedTS := lastTrackedTS s; efAcOutW := efAcOutW s;
     efStandbyW := efStandbyW s; efChargeW := efChargeW s;
     lastQuotaTS := lastQuotaTS s; lastSetTS := lastSetTS s;
     lastOptTS := lastOptTS s; lastRestoreTryTS := lastRestoreTryTS s;
     shellyH := shellyH s; mqttQuotaH := mqttQuotaH s;
     mqttReplyH := mqttReplyH s; heartbeat := heartbeat s |}.

Definition set_voltageV (v : Q) (s : State) : State :=
  {| on := on s; oc := oc s; voltageV := v; currentLimitA := currentLimitA s;
     lastShellyEvtTS := lastShellyEvtTS s; ocSinceTS := ocSinceTS s;
     measurements := measurements s; maxP10s := maxP10s s;
     lastTrackedPower := lastTrackedPower s;
     lastTrackedTS := lastTrackedTS s; efAcOutW := efAcOutW s;
     efStandbyW := efStandbyW s; efChargeW := efChargeW s;
     lastQuotaTS := lastQuotaTS s; lastSetTS := lastSetTS s;
     lastOptTS := lastOptTS s; lastRestoreTryTS := lastRestoreTryTS s;
     shellyH := shellyH s; mqttQuotaH := mqttQuotaH s;
     mqttReplyH := mqttReplyH s; heartbeat := heartbeat s |}.

Definition set_currentLimitA (v : Q) (s : State) : State :=
  {| on := on s; oc := oc s; voltageV := voltageV s; currentLimitA := v;
     lastShellyEvtTS := lastShellyEvtTS s; ocSinceTS := ocSinceTS s;
     measurements := measurements s; maxP10s := maxP10s s;
     lastTrackedPower := lastTrackedPower s;
     lastTrackedTS := lastTrackedTS s; efAcOutW := efAcOutW s;
     efStandbyW := efStandbyW s; efChargeW := efChargeW s;
     lastQuotaTS := lastQuotaTS s; lastSetTS := lastSetTS s;
     lastOptTS := lastOptTS s; lastRestoreTryTS := lastRestoreTryTS s;
     shellyH := shellyH s; mqttQuotaH := mqttQuotaH s;
     mqttReplyH := mqttReplyH s; heartbeat := heartbeat s |}.

Definition set_lastShellyEvtTS (v : Z) (s : State) : State :=
  {| on := on s; oc := oc s; voltageV := voltageV s;
     currentLimitA := currentLimitA s; lastShellyEvtTS := v;
     ocSinceTS := ocSinceTS s; measurements := measurements s;
     maxP10s := maxP10s s; lastTrackedPower := lastTrackedPower s;
     lastTrackedTS := lastTrackedTS s; efAcOutW := efAcOutW s;
     efStandbyW := efStandbyW s; efChargeW := efChargeW s;
     lastQuotaTS := lastQuotaTS s; lastSetTS := lastSetTS s;
     lastOptTS := lastOptTS s; lastRestoreTryTS := lastRestoreTryTS s;
     shellyH := shellyH s; mqttQuotaH := mqttQuotaH s;
     mqttReplyH := mqttReplyH s; heartbeat := heartbeat s |}.

Definition set_ocSinceTS (v : Z) (s : State) : State :=
  {| on := on s; oc := oc s; voltageV := voltageV s;
     currentLimitA := currentLimitA s; lastShellyEvtTS := lastShellyEvtTS s;
     ocSinceTS := v; measurements := measurements s; maxP10s := maxP10s s;
     lastTrackedPower := lastTrackedPower s;
     lastTrackedTS := lastTrackedTS s; efAcOutW := efAcOutW s;
     efStandbyW := efStandbyW s; efChargeW := efChargeW s;
     lastQuotaTS := lastQuotaTS s; lastSetTS := lastSetTS s;
     lastOptTS := lastOptTS s; lastRestoreTryTS := lastRestoreTryTS s;
     shellyH := shellyH s; mqttQuotaH := mqttQuotaH s;
     mqttReplyH := mqttReplyH s; heartbeat := heartbeat s |}.

Definition set_measurements (v : list Measurement) (s : State) : State :=
  {| on := on s; oc := oc s; voltageV := voltageV s;
     currentLimitA := currentLimitA s; lastShellyEvtTS := lastShellyEvtTS s;
     ocSinceTS := ocSinceTS s; measurements := v; maxP10s := maxP10s s;
     lastTrackedPower := lastTrackedPower s;
     lastTrackedTS := lastTrackedTS s; efAcOutW := efAcOutW s;
     efStandbyW := efStandbyW s; efChargeW := efChargeW s;
     lastQuotaTS := lastQuotaTS s; lastSetTS := lastSetTS s;
     lastOptTS := lastOptTS s; lastRestoreTryTS := lastRestoreTryTS s;
     shellyH := shellyH s; mqttQuotaH := mqttQuotaH s;
     mqttReplyH := mqttReplyH s; heartbeat := heartbeat s |}.

Definition set_maxP10s (v : Q) (s : State) : State :=
  {| on := on s; oc := oc s; voltageV := voltageV s;
     currentLimitA := currentLimitA s; lastShellyEvtTS := lastShellyEvtTS s;
     ocSinceTS := ocSinceTS s; measurements := measurements s; maxP10s := v;
     lastTrackedPower := lastTrackedPower s;
     lastTrackedTS := lastTrackedTS s; efAcOutW := efAcOutW s;
     efStandbyW := efStandbyW s; efChargeW := efChargeW s;
     lastQuotaTS := lastQuotaTS s; lastSetTS := lastSetTS s;
     lastOptTS := lastOptTS s; lastRestoreTryTS := lastRestoreTryTS s;
     shellyH := shellyH s; mqttQuotaH := mqttQuotaH s;
     mqttReplyH := mqttReplyH s; heartbeat := heartbeat s |}.

Definition set_lastTrackedPower (v : Q) (s : State) : State :=
  {| on := on s; oc := oc s; voltageV := voltageV s;
     currentLimitA := currentLimitA s; lastShellyEvtTS := lastShellyEvtTS s;
     ocSinceTS := ocSinceTS s; measurements := measurements s;
     maxP10s := maxP10s s; lastTrackedPower := v;
     lastTrackedTS := lastTrackedTS s; efAcOutW := efAcOutW s;
     efStandbyW := efStandbyW s; efChargeW := efChargeW s;
     lastQuotaTS := lastQuotaTS s; lastSetTS := lastSetTS s;
     lastOptTS := lastOptTS s; lastRestoreTryTS := lastRestoreTryTS s;
     shellyH := shellyH s; mqttQuotaH := mqttQuotaH s;
     mqttReplyH := mqttReplyH s; heartbeat := heartbeat s |}.

Definition set_lastTrackedTS (v : Z) (s : State) : State :=
  {| on := on s; oc := oc s; voltageV := voltageV s;
     currentLimitA := currentLimitA s; lastShellyEvtTS := lastShellyEvtTS s;
     ocSinceTS := ocSinceTS s; measurements := measurements s;
     maxP10s := maxP10s s; lastTrackedPower := lastTrackedPower s;
     lastTrackedTS := v; efAcOutW := efAcOutW s; efStandbyW := efStandbyW s;
     efChargeW := efChargeW s; lastQuotaTS := lastQuotaTS s;
     lastSetTS := lastSetTS s; lastOptTS := lastOptTS s;
     lastRestoreTryTS := lastRestoreTryTS s; shellyH := shellyH s;
     mqttQuotaH := mqttQuotaH s; mqttReplyH := mqttReplyH s;
     heartbeat := heartbeat s |}.

Definition set_efAcOutW (v : Q) (s : State) : State :=
  {| on := on s; oc := oc s; voltageV := voltageV s;
     currentLimitA := currentLimitA s; lastShellyEvtTS := lastShellyEvtTS s;
     ocSinceTS := ocSinceTS s; measurements := measurements s;
     maxP10s := maxP10s s; lastTrackedPower := lastTrackedPower s;
     lastTrackedTS := lastTrackedTS s; efAcOutW := v;
     efStandbyW := efStandbyW s; efChargeW := efChargeW s;
     lastQuotaTS := lastQuotaTS s; lastSetTS := lastSetTS s;
     lastOptTS := lastOptTS s; lastRestoreTryTS := lastRestoreTryTS s;
     shellyH := shellyH s; mqttQuotaH := mqttQuotaH s;
     mqttReplyH := mqttReplyH s; heartbeat := heartbeat s |}.

Definition set_efStandbyW (v : Q) (s : State) : State :=
  {| on := on s; oc := oc s; voltageV := voltageV s;
     currentLimitA := currentLimitA s; lastShellyEvtTS := lastShellyEvtTS s;
     ocSinceTS := ocSinceTS s; measurements := measurements s;
     maxP10s := maxP10s s; lastTrackedPower := lastTrackedPower s;
     lastTrackedTS := lastTrackedTS s; efAcOutW := efAcOutW s;
     efStandbyW := v; efChargeW := efChargeW s; lastQuotaTS := lastQuotaTS s;
     lastSetTS := lastSetTS s; lastOptTS := lastOptTS s;
     lastRestoreTryTS := lastRestoreTryTS s; shellyH := shellyH s;
     mqttQuotaH := mqttQuotaH s; mqttReplyH := mqttReplyH s;
     heartbeat := heartbeat s |}.

Definition set_efChargeW (v : Q) (s : State) : State :=
  {| on := on s; oc := oc s; voltageV := voltageV s;
     currentLimitA := currentLimitA s; lastShellyEvtTS := lastShellyEvtTS s;
     ocSinceTS := ocSinceTS s; measurements := measurements s;
     maxP10s := maxP10s s; lastTrackedPower := lastTrackedPower s;
     lastTrackedTS := lastTrackedTS s; efAcOutW := efAcOutW s;
     efStandbyW := efStandbyW s; efChargeW := v;
     lastQuotaTS := lastQuotaTS s; lastSetTS := lastSetTS s;
     lastOptTS := lastOptTS s; lastRestoreTryTS := lastRestoreTryTS s;
     shellyH := shellyH s; mqttQuotaH := mqttQuotaH s;
     mqttReplyH := mqttReplyH s; heartbeat := heartbeat s |}.

Definition set_lastQuotaTS (v : Z) (s : State) : State :=
  {| on := on s; oc := oc s; voltageV := voltageV s;
     currentLimitA := currentLimitA s; lastShellyEvtTS := lastShellyEvtTS s;
     ocSinceTS := ocSinceTS s; measurements := measurements s;
     maxP10s := maxP10s s; lastTrackedPower := lastTrackedPower s;
     lastTrackedTS := lastTrackedTS s; efAcOutW := efAcOutW s;
     efStandbyW := efStandbyW s; efChargeW := efChargeW s; lastQuotaTS := v;
     lastSetTS := lastSetTS s; lastOptTS := lastOptTS s;
     lastRestoreTryTS := lastRestoreTryTS s; shellyH := shellyH s;
     mqttQuotaH := mqttQuotaH s; mqttReplyH := mqttReplyH s;
     heartbeat := heartbeat s |}.

Definition set_lastSetTS (v : Z) (s : State) : State :=
  {| on := on s; oc := oc s; voltageV := voltageV s;
     currentLimitA := currentLimitA s; lastShellyEvtTS := lastShellyEvtTS s;
     ocSinceTS := ocSinceTS s; measurements := measurements s;
     maxP10s := maxP10s s; lastTrackedPower := lastTrackedPower s;
     lastTrackedTS := lastTrackedTS s; efAcOutW := efAcOutW s;
     efStandbyW := efStandbyW s; efChargeW := efChargeW s;
     lastQuotaTS := lastQuotaTS s; lastSetTS := v; lastOptTS := lastOptTS s;
     lastRestoreTryTS := lastRestoreTryTS s; shellyH := shellyH s;
     mqttQuotaH := mqttQuotaH s; mqttReplyH := mqttReplyH s;
     heartbeat := heartbeat s |}.

Definition set_lastOptTS (v : Z) (s : State) : State :=
  {| on := on s; oc := oc s; voltageV := voltageV s;
     currentLimitA := currentLimitA s; lastShellyEvtTS := lastShellyEvtTS s;
     ocSinceTS := ocSinceTS s; measurements := measurements s;
     maxP10s := maxP10s s; lastTrackedPower := lastTrackedPower s;
     lastTrackedTS := lastTrackedTS s; efAcOutW := efAcOutW s;
     efStandbyW := efStandbyW s; efChargeW := efChargeW s;
     lastQuotaTS := lastQuotaTS s; lastSetTS := lastSetTS s; lastOptTS := v;
     lastRestoreTryTS := lastRestoreTryTS s; shellyH := shellyH s;
     mqttQuotaH := mqttQuotaH s; mqttReplyH := mqttReplyH s;
     heartbeat := heartbeat s |}.

Definition set_lastRestoreTryTS (v : Z) (s : State) : State :=
  {| on := on s; oc := oc s; voltageV := voltageV s;
     currentLimitA := currentLimitA s; lastShellyEvtTS := lastShellyEvtTS s;
     ocSinceTS := ocSinceTS s; measurements := measurements s;
     maxP10s := maxP10s s; lastTrackedPower := lastTrackedPower s;
     lastTrackedTS := lastTrackedTS s; efAcOutW := efAcOutW s;
     efStandbyW := efStandbyW s; efChargeW := efChargeW s;
     lastQuotaTS := lastQuotaTS s; lastSetTS := lastSetTS s;
     lastOptTS := lastOptTS s; lastRestoreTryTS := v; shellyH := shellyH s;
     mqttQuotaH := mqttQuotaH s; mqttReplyH := mqttReplyH s;
     heartbeat := heartbeat s |}.

Definition set_shellyH (v : option Handle) (s : State) : State :=
  {| on := on s; oc := oc s; voltageV := voltageV s;
     currentLimitA := currentLimitA s; lastShellyEvtTS := lastShellyEvtTS s;
     ocSinceTS := ocSinceTS s; measurements := measurements s;
     maxP10s := maxP10s s; lastTrackedPower := lastTrackedPower s;
     lastTrackedTS := lastTrackedTS s; efAcOutW := efAcOutW s;
     efStandbyW := efStandbyW s; efChargeW := efChargeW s;
     lastQuotaTS := lastQuotaTS s; lastSetTS := lastSetTS s;
     lastOptTS := lastOptTS s; lastRestoreTryTS := lastRestoreTryTS s;
     shellyH := v; mqttQuotaH := mqttQuotaH s; mqttReplyH := mqttReplyH s;
     heartbeat := heartbeat s |}.

Definition set_mqttQuotaH (v : option Handle) (s : State) : State :=
  {| on := on s; oc := oc s; voltageV := voltageV s;
     currentLimitA := currentLimitA s; lastShellyEvtTS := lastShellyEvtTS s;
     ocSinceTS := ocSinceTS s; measurements := measurements s;
     maxP10s := maxP10s s; lastTrackedPower := lastTrackedPower s;
     lastTrackedTS := lastTrackedTS s; efAcOutW := efAcOutW s;
     efStandbyW := efStandbyW s; efChargeW := efChargeW s;
     lastQuotaTS := lastQuotaTS s; lastSetTS := lastSetTS s;
     lastOptTS := lastOptTS s; lastRestoreTryTS := lastRestoreTryTS s;
     shellyH := shellyH s; mqttQuotaH := v; mqttReplyH := mqttReplyH s;
     heartbeat := heartbeat s |}.

Definition set_mqttReplyH (v : option Handle) (s : State) : State :=
  {| on := on s; oc := oc s; voltageV := voltageV s;
     currentLimitA := currentLimitA s; lastShellyEvtTS := lastShellyEvtTS s;
     ocSinceTS := ocSinceTS s; measurements := measurements s;
     maxP10s := maxP10s s; lastTrackedPower := lastTrackedPower s;
     lastTrackedTS := lastTrackedTS s; efAcOutW := efAcOutW s;
     efStandbyW := efStandbyW s; efChargeW := efChargeW s;
     lastQuotaTS := lastQuotaTS s; lastSetTS := lastSetTS s;
     lastOptTS := lastOptTS s; lastRestoreTryTS := lastRestoreTryTS s;
     shellyH := shellyH s; mqttQuotaH := mqttQuotaH s; mqttReplyH := v;
     heartbeat := heartbeat s |}.

Definition set_heartbeat (v : option Handle) (s : State) : State :=
  {| on := on s; oc := oc s; voltageV := voltageV s;
     currentLimitA := currentLimitA s; lastShellyEvtTS := lastShellyEvtTS s;
     ocSinceTS := ocSinceTS s; measurements := measurements s;
     maxP10s := maxP10s s; lastTrackedPower := lastTrackedPower s;
     lastTrackedTS := lastTrackedTS s; efAcOutW := efAcOutW s;
     efStandbyW := efStandbyW s; efChargeW := efChargeW s;
     lastQuotaTS := lastQuotaTS s; lastSetTS := lastSetTS s;
     lastOptTS := lastOptTS s; lastRestoreTryTS := lastRestoreTryTS s;
     shellyH := shellyH s; mqttQuotaH := mqttQuotaH s;
     mqttReplyH := mqttReplyH s; heartbeat := v |}.
(** ** Effects and the handler monad *)

(** What a handler asks of the runtime.  The [set] message is represented by
    its topic and the watt value it carries; its request id is random and its
    remaining fields are constants. *)
Inductive Effect : Type :=
| MqttPublish (topic : string) (cfgPlugInInfoAcInChgPowMax : Q)
| SwitchSet (on_ : bool)
| SwitchGetStatus
| SwitchGetConfig
| RemoveEventHandler (h : Handle)
| AddEventHandler (h : Handle)
| MqttUnsubscribe (h : Handle)
| MqttSubscribe (topic : string) (h : Handle)
| TimerClear (h : Handle)
| TimerSet (period_ms : Z) (h : Handle).

(** What the runtime answers during one handler invocation: the clock, and the
    handles it returns for new registrations. *)
Record Env : Type := mkEnv {
  now : Z;
  newShellyH : Handle;
  newQuotaH : Handle;
  newReplyH : Handle;
  newTimer : Handle
}.

(** A computation reads the runtime, updates the state, appends effects and
    either returns a value or throws ([None]); the state and the effects
    reached before a throw are kept. *)
Definition M (A : Type) : Type := Env -> State -> option A * State * list Effect.

Definition result_of {A} (r : option A * State * list Effect) : option A := fst (fst r).
Definition state_of {A} (r : option A * State * list Effect) : State := snd (fst r).
Definition effects_of {A} (r : option A * State * list Effect) : list Effect := snd r.

Definition ret {A} (a : A) : M A := fun _ s => (Some a, s, []).

Definition bind {A B} (m : M A) (k : A -> M B) : M B :=
  fun e s =>
    let r1 := m e s in
    match result_of r1 with
    | Some a =>
        let r2 := k a e (state_of r1) in
        (result_of r2, state_of r2, effects_of r1 ++ effects_of r2)
    | None => (None, state_of r1, effects_of r1)
    end.

Notation "x <- m ;; k" := (bind m (fun x => k))
  (at level 61, m at next level, right associativity).
Notation "m ;; k" := (bind m (fun _ => k))
  (at level 61, right associativity).

Definition throw {A} : M A := fun _ s => (None, s, []).
Definition get : M State := fun _ s => (Some s, s, []).
Definition modify (f : State -> State) : M unit := fun _ s => (Some tt, f s, []).
Definition emit (x : Effect) : M unit := fun _ s => (Some tt, s, [x]).
Definition ask {A} (f : Env -> A) : M A := fun e s => (Some (f e), s, []).

(** [try { m } catch(e) { h }] *)
Definition try_catch (m h : M unit) : M unit :=
  fun e s =>
    let r1 := m e s in
    match result_of r1 with
    | Some a => r1
    | None =>
        let r2 := h e (state_of r1) in
        (result_of r2, state_of r2, effects_of r1 ++ effects_of r2)
    end.

(** Property access that may throw. *)
Definition prop (v : JsVal) (k : string) : M JsVal :=
  match getProp v k with
  | Some x => ret x
  | None => throw
  end.

(** ** The script *)

Section Script.

Variable cfg : Config.

(** *** Utils *)

Definition nowS : M Z := ask now.

Definition clamp (v a b : Q) : Q := if ltQ v a then a else if gtQ v b then b else v.

Definition roundQ (w : Q) : Q := (Math_round (w / quantW cfg) * quantW cfg)%Q.

(** *** Rolling window *)

(** The loop of [updateMaxP10s], with its two accumulators. *)
Fixpoint pruneLoop (cutoff : Z) (ms : list Measurement) (maxp : Q)
    (kept : list Measurement) : Q * list Measurement :=
  match ms with
  | [] => (maxp, kept)
  | m :: rest =>
      if (ts m >? cutoff)%Z
      then pruneLoop cutoff rest
             (if gtQ (power m) maxp then power m else maxp) (kept ++ [m])
      else pruneLoop cutoff rest maxp kept
  end.

Definition updateMaxP10s : M unit :=
  t <- nowS ;;
  let cutoff := (t - windowSec cfg)%Z in
  s <- get ;;
  let r := pruneLoop cutoff (measurements s) 0 [] in
  modify (set_measurements (snd r)) ;;
  modify (set_maxP10s (fst r)).

Definition trackPower (powerW : Q) : M unit :=
  t <- nowS ;;
  s <- get ;;
  if Qeq_bool powerW (lastTrackedPower s) && (t =? lastTrackedTS s)%Z
  then ret tt
  else
    modify (set_lastTrackedPower powerW) ;;
    modify (set_lastTrackedTS t) ;;
    modify (fun s => set_measurements
                       (measurements s ++ [{| ts := t; power := powerW |}]) s) ;;
    updateMaxP10s.

Definition clearWindow : M unit :=
  modify (set_measurements []) ;;
  modify (set_maxP10s 0) ;;
  modify (set_lastTrackedPower (-1)) ;;
  modify (set_lastTrackedTS 0).

(** *** Limits *)

Definition maxGridW (s : State) : Q := Math_floor (currentLimitA s * voltageV s).

(** *** EcoFlow SET *)

Definition setEF (targetW : Q) : M bool :=
  t <- nowS ;;
  s <- get ;;
  if (t - lastSetTS s <? setThrottleSec cfg)%Z
  then ret false
  else
    let targetW := clamp (roundQ targetW) (minChargeW cfg) (maxChargeW cfg) in
    modify (set_efChargeW targetW) ;;
    modify (set_lastSetTS t) ;;
    emit (MqttPublish (ecoPrefix cfg ++ "set")%string targetW) ;;
    ret true.

(** *** Optimization (normal operation) *)

(** The estimate of the loads other than the charger, before rounding. *)
Definition otherRaw (s : State) : Q :=
  if gtQ (maxP10s s) 0 && on s
  then
    let other := (maxP10s s - efChargeW s)%Q in
    if ltQ other 0 || gtQ other 2000
    then (efAcOutW s + efStandbyW s)%Q
    else other
  else (efAcOutW s + efStandbyW s)%Q.

Definition optimizeTarget (s : State) : Q :=
  let limitW := maxGridW s in
  let other := Math_max 0 (Math_round (otherRaw s)) in
  let target := (limitW - other - safetyBufferW cfg)%Q in
  clamp (roundQ target) (minChargeW cfg) (maxChargeW cfg).

Definition doOptimize : M unit :=
  s <- get ;;
  let target := optimizeTarget s in
  if geQ (Math_abs (target - efChargeW s)) (minDeltaW cfg)
  then _ <- setEF target ;; ret tt
  else ret tt.

(** *** Restore logic (only while OC is active) *)

Definition tryRestore : M unit :=
  s <- get ;;
  if negb (oc s) then ret tt else
  t <- nowS ;;
  if (t - ocSinceTS s <? restoreDelaySec cfg)%Z then ret tt else
  if (t - lastRestoreTryTS s <? 3)%Z then ret tt else
  modify (set_lastRestoreTryTS t) ;;
  if (t - lastQuotaTS s >? quotaMaxAgeSec cfg)%Z then ret tt else
  let expected := (initChargeW cfg + efAcOutW s + efStandbyW s)%Q in
  let limitW := maxGridW s in
  if geQ expected limitW then ret tt else
  sent <- setEF (initChargeW cfg) ;;
  if negb sent then ret tt else
  emit (SwitchSet true).

(** The callback of the restore's [Switch.Set] call. *)
Definition onSwitchSetResult (r e : JsVal) : M unit :=
  if negb (truthy e)
  then
    t <- nowS ;; modify (set_lastOptTS t) ;;
    t' <- nowS ;; modify (set_lastSetTS t')
  else ret tt.

(** *** Light polling *)

Definition pollCurrentLimit : M unit := emit SwitchGetConfig.

Definition onGetConfigResult (r e : JsVal) : M unit :=
  if truthy e then ret tt else
  cl <- prop r "current_limit" ;;
  match cl with
  | JNum x =>
      s <- get ;;
      if negb (Qeq_bool x (currentLimitA s))
      then modify (set_currentLimitA x)
      else ret tt
  | _ => ret tt
  end.

Definition pollStatusOnce : M unit := emit SwitchGetStatus.

Definition onGetStatusResult (r e : JsVal) : M unit :=
  if truthy e then ret tt else
  v <- prop r "voltage" ;;
  match v with JNum x => modify (set_voltageV x) | _ => ret tt end ;;
  o <- prop r "output" ;;
  match o with JBool b => modify (set_on b) | _ => ret tt end.

(** *** Shelly event handler *)

Definition handleToggle (info : JsVal) : M unit :=
  st <- prop info "state" ;;
  match st with
  | JBool b =>
      modify (set_on b) ;;
      if negb b then clearWindow else ret tt
  | _ => ret tt
  end.

Definition handlePower (info : JsVal) : M unit :=
  s <- get ;;
  if negb (on s) then ret tt else
  p <- prop info "apower" ;;
  match p with
  | JNum x => trackPower x
  | _ => ret tt
  end.

Definition handleOvercurrent : M unit :=
  modify (set_oc true) ;;
  t <- nowS ;; modify (set_ocSinceTS t) ;;
  modify (set_on false) ;;
  clearWindow.

Definition handleOvercurrentClear : M unit := modify (set_oc false).

Definition handleConfigChanged : M unit := pollCurrentLimit.

(** The [switch (et)] of the event handler. *)
Definition dispatch (et info : JsVal) : M unit :=
  if isStr et "toggle" then handleToggle info
  else if isStr et "power_measurement" || isStr et "power_update"
       then handlePower info
  else if isStr et "overcurrent" then handleOvercurrent
  else if isStr et "overcurrent_clear" then handleOvercurrentClear
  else if isStr et "config_changed" then handleConfigChanged
  else ret tt.

(** The function registered by [Shelly.addEventHandler]. *)
Definition onShellyEvent (ev : JsVal) : M unit :=
  if negb (truthy ev) then ret tt else
  info <- prop ev "info" ;;
  if negb (truthy info) then ret tt else
  comp <- prop info "component" ;;
  if negb (isStr comp "switch:0") then ret tt else
  t <- nowS ;; modify (set_lastShellyEvtTS t) ;;
  e0 <- prop info "event" ;;
  let et := if truthy e0 then e0 else JStr "" in
  dispatch et info.

Definition registerShellyHandler : M unit :=
  s <- get ;;
  match shellyH s with
  | Some h => emit (RemoveEventHandler h) ;; modify (set_shellyH None)
  | None => ret tt
  end ;;
  h <- ask newShellyH ;;
  emit (AddEventHandler h) ;;
  modify (set_shellyH (Some h)).

(** *** MQTT handlers *)

(** [JSON.parse(msg)]: the runtime's parser either yields a value or throws. *)
Definition JSON_parse (parsed : option JsVal) : M JsVal :=
  match parsed with
  | Some v => ret v
  | None => throw
  end.

(** [data.param || data.params || data || {}] *)
Definition quotaParamMap (data : JsVal) : M JsVal :=
  a <- prop data "param" ;;
  if truthy a then ret a else
  b <- prop data "params" ;;
  if truthy b then ret b else
  if truthy data then ret data else ret (JObj []).

(** The assignments of the [quota] callback from the parameter map [p]. *)
Definition storeQuota (p : JsVal) : M unit :=
  hv <- prop p "powGetAcHvOut" ;;
  match hv with
  | JNum x => modify (set_efAcOutW (Math_max 0 (Math_abs x)))
  | _ =>
      sum <- prop p "powOutSumW" ;;
      match sum with
      | JNum y => modify (set_efAcOutW (Math_max 0 y))
      | _ => ret tt
      end
  end ;;
  op <- prop p "outputPower" ;;
  match op with
  | JNum z => modify (set_efStandbyW (Math_max 20 z))
  | _ => ret tt
  end.

(** The [quota] subscription's callback. *)
Definition onQuota (msg : option JsVal) : M unit :=
  t <- nowS ;; modify (set_lastQuotaTS t) ;;
  try_catch
    (data <- JSON_parse msg ;;
     p <- quotaParamMap data ;;
     storeQuota p)
    (ret tt).

(** The [set_reply] subscription's callback only reports. *)
Definition onSetReply (msg : option JsVal) : M unit :=
  try_catch
    (r <- JSON_parse msg ;;
     if negb (truthy r) then ret tt else
     d <- prop r "data" ;;
     if negb (truthy d) then ret tt else
     _ <- prop d "configOk" ;;
     ret tt)
    (ret tt).

Definition registerMqttHandlers : M unit :=
  s <- get ;;
  match mqttQuotaH s with
  | Some h => emit (MqttUnsubscribe h) ;; modify (set_mqttQuotaH None)
  | None => ret tt
  end ;;
  s <- get ;;
  match mqttReplyH s with
  | Some h => emit (MqttUnsubscribe h) ;; modify (set_mqttReplyH None)
  | None => ret tt
  end ;;
  hq <- ask newQuotaH ;;
  emit (MqttSubscribe (ecoPrefix cfg ++ "quota")%string hq) ;;
  modify (set_mqttQuotaH (Some hq)) ;;
  hr <- ask newReplyH ;;
  emit (MqttSubscribe (ecoPrefix cfg ++ "set_reply")%string hr) ;;
  modify (set_mqttReplyH (Some hr)).

(** *** Heartbeat *)

(** Step 1 of [tick]: the two watchdogs. *)
Definition tickWatchdogs (t : Z) : M unit :=
  s <- get ;;
  (if (t - lastShellyEvtTS s >? eventTimeoutSec cfg)%Z
   then
     registerShellyHandler ;;
     pollStatusOnce ;;
     modify (set_lastShellyEvtTS t)
   else ret tt) ;;
  s <- get ;;
  if (t - lastQuotaTS s >? mqttTimeoutSec cfg)%Z
  then registerMqttHandlers
  else ret tt.

Definition tick : M unit :=
  t <- nowS ;;
  tickWatchdogs t ;;
  updateMaxP10s ;;
  s <- get ;;
  if oc s then tryRestore else
  if on s && (t - lastOptTS s >=? optimizeEverySec cfg)%Z
  then doOptimize ;; modify (set_lastOptTS t)
  else ret tt.

(** *** Init *)

Definition init : M unit :=
  t <- nowS ;;
  modify (set_lastQuotaTS t) ;;
  modify (set_lastShellyEvtTS t) ;;
  modify (set_lastOptTS t) ;;
  registerMqttHandlers ;;
  registerShellyHandler ;;
  pollStatusOnce ;;
  pollCurrentLimit ;;
  s <- get ;;
  match heartbeat s with
  | Some h => emit (TimerClear h)
  | None => ret tt
  end ;;
  h <- ask newTimer ;;
  emit (TimerSet 1000 h) ;;
  modify (set_heartbeat (Some h)).

(** *** The event loop *)

(** Everything the runtime can deliver to the script. *)
Inductive Input : Type :=
| Tick
| ShellyEvent (ev : JsVal)
| MqttQuota (msg : option JsVal)
| MqttReply (msg : option JsVal)
| SwitchSetResult (r e : JsVal)
| GetStatusResult (r e : JsVal)
| GetConfigResult (r e : JsVal).

Definition handler (i : Input) : M unit :=
  match i with
  | Tick => tick
  | ShellyEvent ev => onShellyEvent ev
  | MqttQuota msg => onQuota msg
  | MqttReply msg => onSetReply msg
  | SwitchSetResult r e => onSwitchSetResult r e
  | GetStatusResult r e => onGetStatusResult r e
  | GetConfigResult r e => onGetConfigResult r e
  end.

(** One handler invocation: the new state and what was asked of the runtime. *)
Definition step (e : Env) (i : Input) (s : State) : State * list Effect :=
  let r := handler i e s in (state_of r, effects_of r).

(** A sequence of invocations, each with the runtime's answers for it. *)
Fixpoint run (tr : list (Env * Input)) (s : State) : State * list Effect :=
  match tr with
  | [] => (s, [])
  | (e, i) :: rest =>
      let r1 := step e i s in
      let r2 := run rest (fst r1) in
      (fst r2, snd r1 ++ snd r2)
  end.

End Script.

Arguments clamp v a b : simpl never.

(** * Vocabulary of the properties *)

(** A computation leaves an observation [f] of the state alone. *)
Definition preserves {A F : Type} (f : State -> F) (m : M A) : Prop :=
  forall e s, f (state_of (m e s)) = f s.

(** The [info] of a notification that passes the event handler's base guard. *)
Definition switchInfo (ev : JsVal) : option JsVal :=
  if truthy ev then
    match getProp ev "info" with
    | Some info =>
        if truthy info then
          match getProp info "component" with
          | Some comp => if isStr comp "switch:0" then Some info else None
          | None => None
          end
        else None
    | None => None
    end
  else None.

(** [info.event || ""] *)
Definition eventName (info : JsVal) : JsVal :=
  match getProp info "event" with
  | Some e0 => if truthy e0 then e0 else JStr ""
  | None => JStr ""
  end.

(** A field of the notification's [info]. *)
Definition infoField (k : string) (info : JsVal) : JsVal :=
  match getProp info k with
  | Some v => v
  | None => JUndefined
  end.

(** The kind of a switch notification the dispatcher acts on: the event name
    of a notification that passes the base guard. *)
Definition switchEventKind (ev : JsVal) : option string :=
  match switchInfo ev with
  | Some info =>
      match eventName info with
      | JStr k => Some k
      | _ => None
      end
  | None => None
  end.

Definition hasKind (k : string) (i : Input) : bool :=
  match i with
  | ShellyEvent ev =>
      match switchEventKind ev with
      | Some k' => k' =? k
      | None => false
      end
  | _ => false
  end.

(** Power notifications, under either of their two names. *)
Definition isPower (i : Input) : bool :=
  hasKind "power_measurement" i || hasKind "power_update" i.

(** A toggle notification reporting the relay off. *)
Definition isToggleOff (i : Input) : bool :=
  hasKind "toggle" i &&
  match i with
  | ShellyEvent ev =>
      match switchInfo ev with
      | Some info =>
          match infoField "state" info with
          | JBool b => negb b
          | _ => false
          end
      | None => false
      end
  | _ => false
  end.

(** The rolling window holds no sample and reports no peak. *)
Definition windowEmpty (s : State) : Prop :=
  measurements s = [] /\ maxP10s s = 0.

(** A computation maintains an invariant of the state. *)
Definition keeps {A : Type} (I : State -> Prop) (m : M A) : Prop :=
  forall e s, I s -> I (state_of (m e s)).

(** Fault-trip and fault-clear notifications. *)
Definition isTrip : Input -> bool := hasKind "overcurrent".
Definition isClear : Input -> bool := hasKind "overcurrent_clear".

(** The watt values of the charge-power commands among some effects. *)
Definition commands (o : list Effect) : list Q :=
  flat_map (fun x => match x with MqttPublish _ v => [v] | _ => [] end) o.

(** A multiple of the quantization step. *)
Definition quantized (cfg : Config) (v : Q) : Prop :=
  exists k : Z, v == inject_Z k * quantW cfg.

(** What a commanded charge power has to satisfy. *)
Definition chargeValueOk (cfg : Config) (v : Q) : Prop :=
  quantized cfg v /\ minChargeW cfg <= v <= maxChargeW cfg.

(** A computation either sends no command and leaves [efChargeW] alone, or
    sends only values satisfying [P] and leaves [efChargeW] satisfying [P]. *)
Definition commandsWithin {A} (P : Q -> Prop) (m : M A) : Prop :=
  forall e s,
    let r := m e s in
    (commands (effects_of r) = [] /\ efChargeW (state_of r) = efChargeW s) \/
    (Forall P (commands (effects_of r)) /\ P (efChargeW (state_of r))).

(** The larger of the peak so far and one more sample, as the loop of
    [updateMaxP10s] computes it. *)
Definition peakStep (acc : Q) (m : Measurement) : Q :=
  if gtQ (power m) acc then power m else acc.

(** The samples [updateMaxP10s] keeps at time [t]: those younger than the
    window length. *)
Definition inWindow (cfg : Config) (t : Z) (m : Measurement) : bool :=
  (t - ts m <? windowSec cfg)%Z.

(** The rolling window as the specification words it: a sample qualifies if
    [now - t <= window_length], and the peak is the maximum power among the
    qualifying samples, 0 if there is none. *)
Definition spec_qualifies (cfg : Config) (t : Z) (m : Measurement) : bool :=
  (t - ts m <=? windowSec cfg)%Z.

Definition spec_window (cfg : Config) (t : Z) (ms : list Measurement) :
    list Measurement :=
  filter (spec_qualifies cfg t) ms.

Definition spec_peak (cfg : Config) (t : Z) (ms : list Measurement) : Q :=
  match spec_window cfg t ms with
  | [] => 0
  | m :: rest => fold_left peakStep rest (power m)
  end.







(** A computation asks the runtime only for effects satisfying [P]. *)
Definition emitsOnly {A : Type} (P : Effect -> bool) (m : M A) : Prop :=
  forall e s, forallb P (effects_of (m e s)) = true.

(** [data.param || data.params || data || {}]; [None] where reading
    [data.param] throws. *)
Definition quotaParams (data : JsVal) : option JsVal :=
  match getProp data "param" with
  | None => None
  | Some a =>
      if truthy a then Some a else
      match getProp data "params" with
      | None => None
      | Some b =>
          if truthy b then Some b else
          if truthy data then Some data else Some (JObj [])
      end
  end.


(** The fields [onQuota] stores for a parameter map [p]. *)
Definition acOutAfter (p : JsVal) (s : State) : Q :=
  match infoField "powGetAcHvOut" p with
  | JNum x => Math_max 0 (Math_abs x)
  | _ =>
      match infoField "powOutSumW" p with
      | JNum y => Math_max 0 y
      | _ => efAcOutW s
      end
  end.

Definition standbyAfter (p : JsVal) (s : State) : Q :=
  match infoField "outputPower" p with
  | JNum z => Math_max 20 z
  | _ => efStandbyW s
  end.

(** ** Concrete inputs *)

Module Ex.

Definition envAt (t : Z) : Env :=
  {| now := t; newShellyH := 1%Z; newQuotaH := 2%Z; newReplyH := 3%Z;
     newTimer := 4%Z |}.

(** A notification of the switch component, with one payload field. *)
Definition switchEvent (kind : string) (payload : list (string * JsVal)) : Input :=
  ShellyEvent
    (JObj [("info",
            JObj (("component", JStr "switch:0") :: ("event", JStr kind)
                    :: payload))]).

Definition toggle (b : bool) : Input := switchEvent "toggle" [("state", JBool b)].
Definition powerUpdate (w : Q) : Input :=
  switchEvent "power_update" [("apower", JNum w)].
Definition overcurrent : Input := switchEvent "overcurrent" [].
Definition overcurrentClear : Input := switchEvent "overcurrent_clear" [].

(** A telemetry message [{"params": {...}}]. *)
Definition quota (params : list (string * JsVal)) : Input :=
  MqttQuota (Some (JObj [("params", JObj params)])).

(** The script's state once it runs: relay on, handlers registered. *)
Definition running : State :=
  set_on true
    (set_shellyH (Some 1%Z)
       (set_mqttQuotaH (Some 2%Z) (set_mqttReplyH (Some 3%Z) S0))).

End Ex.

(** * Proofs *)

(** ** The monad's plumbing *)

Lemma surjective_triple {A} (r : option A * State * list Effect) :
  (result_of r, state_of r, effects_of r) = r.
Proof. destruct r as [[? ?] ?]. reflexivity. Qed.

Lemma bind_ret_l {A B} (a : A) (k : A -> M B) e s : bind (ret a) k e s = k a e s.
Proof. unfold bind, ret. cbn. apply surjective_triple. Qed.

Lemma bind_result {A B} (m : M A) (k : A -> M B) e s a s1 o1 :
  m e s = (Some a, s1, o1) ->
  bind m k e s =
  (result_of (k a e s1), state_of (k a e s1), o1 ++ effects_of (k a e s1)).
Proof. intros H. unfold bind. rewrite H. reflexivity. Qed.

Lemma bind_assoc_result {A B C} (m : M A) (k : A -> M B) (h : B -> M C)
    e s a :
  m e s = (Some a, s, []) ->
  bind (bind m k) h e s = bind (k a) h e s.
Proof.
  intros H. unfold bind. rewrite H. cbn [result_of state_of effects_of fst snd app].
  destruct (result_of (k a e s)); reflexivity.
Qed.

Lemma bind_throw_l {A B} (k : A -> M B) e s : bind throw k e s = (None, s, []).
Proof. reflexivity. Qed.

Lemma bind_modify_l {B} g (k : unit -> M B) e s :
  bind (modify g) k e s = k tt e (g s).
Proof. unfold bind, modify. cbn. apply surjective_triple. Qed.

Lemma bind_ask_l {A B} (f : Env -> A) (k : A -> M B) e s :
  bind (ask f) k e s = k (f e) e s.
Proof. unfold bind, ask. cbn. apply surjective_triple. Qed.

Lemma bind_get_l {B} (k : State -> M B) e s : bind get k e s = k s e s.
Proof. unfold bind, get. cbn. apply surjective_triple. Qed.

Lemma try_catch_ret_state (m : M unit) e s :
  state_of (try_catch m (ret tt) e s) = state_of (m e s).
Proof. unfold try_catch. destruct (result_of (m e s)); reflexivity. Qed.

(** ** Frame conditions *)

Section Frames.

Context {F : Type} (f : State -> F).

Lemma preserves_ret {A} (a : A) : preserves f (ret a).
Proof. intros e s; reflexivity. Qed.

Lemma preserves_throw {A} : preserves f (@throw A).
Proof. intros e s; reflexivity. Qed.

Lemma preserves_get : preserves f get.
Proof. intros e s; reflexivity. Qed.

Lemma preserves_ask {A} (g : Env -> A) : preserves f (ask g).
Proof. intros e s; reflexivity. Qed.

Lemma preserves_emit x : preserves f (emit x).
Proof. intros e s; reflexivity. Qed.

Lemma preserves_modify g : (forall s, f (g s) = f s) -> preserves f (modify g).
Proof. intros H e s; apply H. Qed.

Lemma preserves_bind {A B} (m : M A) (k : A -> M B) :
  preserves f m -> (forall a, preserves f (k a)) -> preserves f (bind m k).
Proof.
  intros Hm Hk e s. unfold bind.
  destruct (result_of (m e s)) as [a|]; cbn [state_of fst snd].
  - fold (state_of (k a e (state_of (m e s)))). rewrite Hk. apply Hm.
  - apply Hm.
Qed.

Lemma preserves_try_catch (m h : M unit) :
  preserves f m -> preserves f h -> preserves f (try_catch m h).
Proof.
  intros Hm Hh e s. unfold try_catch.
  destruct (result_of (m e s)); cbn [state_of fst snd].
  - apply Hm.
  - fold (state_of (h e (state_of (m e s)))). rewrite Hh. apply Hm.
Qed.

Lemma preserves_prop v k : preserves f (prop v k).
Proof. unfold prop. destruct (getProp v k); intros e s; reflexivity. Qed.

Lemma preserves_JSON_parse v : preserves f (JSON_parse v).
Proof. destruct v; intros e s; reflexivity. Qed.

End Frames.

(** Decomposes a frame goal along the structure of the computation; what is
    left are the assignments [modify g] that [reflexivity] does not settle. *)
Ltac frame :=
  repeat first
    [ apply preserves_ret | apply preserves_throw | apply preserves_get
    | apply preserves_ask | apply preserves_emit | apply preserves_prop
    | apply preserves_JSON_parse
    | apply preserves_modify; intros ?; reflexivity
    | apply preserves_bind; [ | intros ? ]
    | apply preserves_try_catch
    | match goal with
      | |- preserves _ (if ?b then _ else _) => destruct b
      | |- preserves _ (match ?x with _ => _ end) => destruct x
      end
    | progress cbv zeta
    | assumption ].

(** Runs the monad's plumbing, leaving arithmetic and the handlers alone. *)
Ltac mstep :=
  cbn [bind ret get modify emit ask throw try_catch prop getProp JSON_parse nowS
       result_of state_of effects_of fst snd negb andb orb truthy isStr app].

Section Latch.

Variable cfg : Config.

Lemma updateMaxP10s_preserves_oc : preserves oc (updateMaxP10s cfg).
Proof. unfold updateMaxP10s, nowS. frame. Qed.

Lemma clearWindow_preserves_oc : preserves oc clearWindow.
Proof. unfold clearWindow. frame. Qed.

Lemma trackPower_preserves_oc x : preserves oc (trackPower cfg x).
Proof. unfold trackPower, nowS. frame. Qed.

Lemma setEF_preserves_oc w : preserves oc (setEF cfg w).
Proof. unfold setEF, nowS. frame. Qed.

Lemma doOptimize_preserves_oc : preserves oc (doOptimize cfg).
Proof. unfold doOptimize. frame. Qed.

Lemma tryRestore_preserves_oc : preserves oc (tryRestore cfg).
Proof. unfold tryRestore, nowS. frame. Qed.

End Latch.

Section LatchSteps.

Variable cfg : Config.

Lemma handleToggle_preserves_oc info : preserves oc (handleToggle info).
Proof. unfold handleToggle. frame. Qed.

Lemma handlePower_preserves_oc info : preserves oc (handlePower cfg info).
Proof. unfold handlePower. frame. Qed.

Lemma tick_preserves_oc : preserves oc (tick cfg).
Proof. unfold tick, nowS. frame. Qed.

Lemma onQuota_preserves_oc msg : preserves oc (onQuota msg).
Proof. unfold onQuota, quotaParamMap, storeQuota, nowS. frame. Qed.

Lemma onSetReply_preserves_oc msg : preserves oc (onSetReply msg).
Proof. unfold onSetReply. frame. Qed.

Lemma callbacks_preserve_oc r e :
  preserves oc (onSwitchSetResult r e) /\
  preserves oc (onGetStatusResult r e) /\
  preserves oc (onGetConfigResult r e).
Proof.
  unfold onSwitchSetResult, onGetStatusResult, onGetConfigResult, nowS.
  repeat split; frame.
Qed.

Lemma init_preserves_oc : preserves oc (init cfg).
Proof. unfold init, nowS. frame. Qed.

(** The event handler: notifications failing the base guard are ignored; the
    others stamp [lastShellyEvtTS] and are dispatched on their event name. *)
Lemma onShellyEvent_spec ev e s :
  onShellyEvent cfg ev e s =
  match switchInfo ev with
  | Some info =>
      (modify (set_lastShellyEvtTS (now e)) ;;
       dispatch cfg (eventName info) info) e s
  | None => (Some tt, s, [])
  end.
Proof.
  unfold onShellyEvent, switchInfo, eventName, prop.
  destruct (truthy ev) eqn:Eev; cbn [negb]; [|reflexivity].
  assert (exists info, getProp ev "info" = Some info) as [info ->].
  { destruct ev; try discriminate; eexists; reflexivity. }
  rewrite bind_ret_l.
  destruct (truthy info) eqn:Einfo; cbn [negb]; [|reflexivity].
  assert (exists comp, getProp info "component" = Some comp) as [comp ->].
  { destruct info; try discriminate; eexists; reflexivity. }
  rewrite bind_ret_l.
  destruct (isStr comp "switch:0"); cbn [negb]; [|reflexivity].
  assert (exists e0, getProp info "event" = Some e0) as [e0 ->].
  { destruct info; try discriminate; eexists; reflexivity. }
  unfold nowS. mstep. reflexivity.
Qed.

(** The latch after a switch notification, by the notification's kind. *)
Lemma oc_onShellyEvent ev e s :
  oc (state_of (onShellyEvent cfg ev e s)) =
  if isTrip (ShellyEvent ev) then true
  else if isClear (ShellyEvent ev) then false
  else oc s.
Proof.
  rewrite onShellyEvent_spec.
  unfold isTrip, isClear, hasKind, switchEventKind.
  destruct (switchInfo ev) as [info|]; [|reflexivity].
  mstep. unfold dispatch.
  destruct (eventName info) as [| |b|x|k|xs|fs]; try reflexivity.
  mstep.
  destruct (String.eqb_spec k "toggle") as [->|_]; mstep;
    [rewrite handleToggle_preserves_oc; reflexivity|].
  destruct (String.eqb_spec k "power_measurement") as [->|_]; mstep;
    [rewrite handlePower_preserves_oc; reflexivity|].
  destruct (String.eqb_spec k "power_update") as [->|_]; mstep;
    [rewrite handlePower_preserves_oc; reflexivity|].
  destruct (String.eqb_spec k "overcurrent") as [->|_]; [reflexivity|].
  destruct (String.eqb_spec k "overcurrent_clear") as [->|_]; [reflexivity|].
  destruct (k =? "config_changed"); reflexivity.
Qed.

End LatchSteps.

Section LatchTheorem.

Variable cfg : Config.

Lemma oc_step e i s :
  oc (fst (step cfg e i s)) =
  if isTrip i then true else if isClear i then false else oc s.
Proof.
  unfold step; cbn [fst].
  destruct i as [|ev|msg|msg|r e'|r e'|r e']; cbn [handler].
  - apply tick_preserves_oc.
  - apply oc_onShellyEvent.
  - apply onQuota_preserves_oc.
  - apply onSetReply_preserves_oc.
  - apply (callbacks_preserve_oc r e').
  - apply (callbacks_preserve_oc r e').
  - apply (callbacks_preserve_oc r e').
Qed.

Lemma oc_run_latched tr :
  forall s,
    oc s = true ->
    forallb (fun ei => negb (isClear (snd ei))) tr = true ->
    oc (fst (run cfg tr s)) = true.
Proof.
  induction tr as [|[e i] tr IH]; intros s Hs Hno; cbn [run fst].
  - exact Hs.
  - cbn [forallb snd] in Hno. apply andb_true_iff in Hno as [Hi Htr].
    apply IH; [|exact Htr].
    rewrite oc_step. destruct (isTrip i); [reflexivity|].
    apply negb_true_iff in Hi. rewrite Hi. exact Hs.
Qed.

End LatchTheorem.

(** C1. The overcurrent latch goes from false to true only when a fault-trip
    notification is handled and from true to false only when a fault-clear
    notification is handled; every other handler invocation (ticks with their
    restore attempts and optimizer runs, power readings, toggles, telemetry,
    RPC results) leaves it as it was.  Hence a set latch stays set along any
    sequence of invocations without a fault-clear notification, whatever the
    headroom. *)
Theorem latch_changes_only_on_trip_and_clear (cfg : Config) :
  (forall e i s,
      let s' := fst (step cfg e i s) in
      (oc s = false -> oc s' = true -> isTrip i = true) /\
      (oc s = true -> oc s' = false -> isClear i = true) /\
      (isTrip i = false -> isClear i = false -> oc s' = oc s) /\
      (isTrip i = true -> oc s' = true) /\
      (isClear i = true -> isTrip i = false /\ oc s' = false)) /\
  (forall tr s,
      oc s = true ->
      forallb (fun ei => negb (isClear (snd ei))) tr = true ->
      oc (fst (run cfg tr s)) = true).
Proof.
  split.
  - intros e i s s'. subst s'. rewrite oc_step.
    assert (Hex : isClear i = true -> isTrip i = false).
    { unfold isTrip, isClear, hasKind. destruct i; try discriminate.
      destruct (switchEventKind ev) as [k|]; [|discriminate].
      destruct (String.eqb_spec k "overcurrent_clear") as [->|]; [|discriminate].
      reflexivity. }
    destruct (isTrip i), (isClear i); repeat split; intros; try congruence;
      try (specialize (Hex eq_refl); congruence).
  - intros tr s. apply oc_run_latched.
Qed.

(** After a trip the latch survives a fresh telemetry report of a small load,
    the restore the next tick performs on it, the confirmation of the
    switch-on, the relay's toggle, a power reading and further ticks. *)
Lemma latch_changes_only_on_trip_and_clear_witness :
  let tripped := fst (step CFG (Ex.envAt 100) Ex.overcurrent Ex.running) in
  let afterwards :=
    [ (Ex.envAt 110, Ex.quota [("powOutSumW", JNum 50)]);
      (Ex.envAt 111, Tick);
      (Ex.envAt 112, SwitchSetResult JNull JNull);
      (Ex.envAt 112, Ex.toggle true);
      (Ex.envAt 113, Ex.powerUpdate 450);
      (Ex.envAt 125, Tick) ] in
  isTrip Ex.overcurrent = true /\
  oc tripped = true /\
  In (SwitchSet true) (snd (run CFG afterwards tripped)) /\
  oc (fst (run CFG afterwards tripped)) = true /\
  isClear Ex.overcurrentClear = true.
Proof.
  intros tripped afterwards.
  pose proof (latch_changes_only_on_trip_and_clear CFG) as [Hstep Hrun].
  destruct (Hstep (Ex.envAt 100) Ex.overcurrent Ex.running)
    as (Hup & _ & _ & Htrip & _).
  destruct (Hstep (Ex.envAt 130) Ex.overcurrentClear tripped)
    as (_ & Hdown & _ & _ & _).
  split; [apply Hup; reflexivity|].
  split; [apply Htrip; reflexivity|].
  split; [vm_compute; tauto|].
  split; [apply Hrun; reflexivity|].
  apply Hdown; reflexivity.
Defined.

(** ** Comparisons and rounding *)

Lemma ltQ_spec a b : ltQ a b = true <-> a < b.
Proof.
  unfold ltQ. rewrite negb_true_iff. split.
  - intros H. apply Qnot_le_lt. intros Hle.
    apply Qle_bool_iff in Hle. congruence.
  - intros H. destruct (Qle_bool b a) eqn:E; [|reflexivity].
    apply Qle_bool_iff in E. exfalso. exact (Qlt_not_le _ _ H E).
Qed.

Lemma ltQ_false a b : ltQ a b = false <-> b <= a.
Proof.
  unfold ltQ. rewrite negb_false_iff. apply Qle_bool_iff.
Qed.



Lemma clamp_cases v a b :
  (v < a /\ clamp v a b = a) \/
  (a <= v /\ b < v /\ clamp v a b = b) \/
  (a <= v /\ v <= b /\ clamp v a b = v).
Proof.
  unfold clamp, gtQ.
  destruct (ltQ v a) eqn:Ea.
  - left. split; [apply ltQ_spec; exact Ea | reflexivity].
  - apply ltQ_false in Ea. right.
    destruct (ltQ b v) eqn:Eb.
    + left. repeat split; [exact Ea | apply ltQ_spec; exact Eb].
    + right. apply ltQ_false in Eb. repeat split; assumption.
Qed.

Lemma clamp_range v a b : a <= b -> a <= clamp v a b <= b.
Proof.
  intros Hab.
  destruct (clamp_cases v a b) as [[_ ->]|[(_ & _ & ->)|(Ha & Hb & ->)]].
  - split; [apply Qle_refl | exact Hab].
  - split; [exact Hab | apply Qle_refl].
  - split; assumption.
Qed.

Lemma roundQ_quantized cfg w : quantized cfg (roundQ cfg w).
Proof.
  exists (Qfloor (w / quantW cfg + (1 # 2))). unfold roundQ, Math_round.
  reflexivity.
Qed.

(** ** The command gateway *)

Section Gateway.

Variable cfg : Config.

Lemma setEF_throttled w e s :
  (now e - lastSetTS s < setThrottleSec cfg)%Z ->
  setEF cfg w e s = (Some false, s, []).
Proof.
  intros H. unfold setEF. mstep.
  destruct (Z.ltb_spec (now e - lastSetTS s) (setThrottleSec cfg)); [|lia].
  reflexivity.
Qed.

Lemma setEF_sent w e s :
  (setThrottleSec cfg <= now e - lastSetTS s)%Z ->
  let v := clamp (roundQ cfg w) (minChargeW cfg) (maxChargeW cfg) in
  setEF cfg w e s =
  (Some true, set_lastSetTS (now e) (set_efChargeW v s),
   [MqttPublish (ecoPrefix cfg ++ "set")%string v]).
Proof.
  intros H v. unfold setEF. mstep.
  destruct (Z.ltb_spec (now e - lastSetTS s) (setThrottleSec cfg)); [lia|].
  reflexivity.
Qed.

(** The value [setEF] commands, under the configuration's well-formedness:
    the charge limits are ordered and are themselves multiples of the step. *)
Lemma clamp_roundQ_ok w :
  quantized cfg (minChargeW cfg) ->
  quantized cfg (maxChargeW cfg) ->
  minChargeW cfg <= maxChargeW cfg ->
  chargeValueOk cfg (clamp (roundQ cfg w) (minChargeW cfg) (maxChargeW cfg)).
Proof.
  intros Hmin Hmax Hle. split; [|apply clamp_range; exact Hle].
  destruct (clamp_cases (roundQ cfg w) (minChargeW cfg) (maxChargeW cfg))
    as [[_ ->]|[(_ & _ & ->)|(_ & _ & ->)]];
    [exact Hmin | exact Hmax | apply roundQ_quantized].
Qed.

End Gateway.

Lemma CFG_min_quantized : quantized CFG (minChargeW CFG).
Proof. exists 40%Z. reflexivity. Qed.

Lemma CFG_max_quantized : quantized CFG (maxChargeW CFG).
Proof. exists 240%Z. reflexivity. Qed.

Lemma CFG_min_le_max : minChargeW CFG <= maxChargeW CFG.
Proof. discriminate. Qed.

Lemma CFG_clamp_roundQ_ok w :
  chargeValueOk CFG (clamp (roundQ CFG w) (minChargeW CFG) (maxChargeW CFG)).
Proof.
  apply clamp_roundQ_ok;
    [apply CFG_min_quantized | apply CFG_max_quantized | apply CFG_min_le_max].
Qed.

(** C4. A [setEF] call less than the throttle interval after the last command
    is rejected: it returns [false], emits nothing and leaves the whole state,
    [efChargeW] and [lastSetTS] included, as it was.  Any other call emits
    exactly one command, records its value in [efChargeW] and stamps
    [lastSetTS].  So of two calls within one throttle interval, the first of
    them accepted, the second is rejected and both fields stay as the first
    call set them. *)
Theorem setEF_throttle (cfg : Config) :
  forall w e s,
    ((now e - lastSetTS s < setThrottleSec cfg)%Z ->
     setEF cfg w e s = (Some false, s, [])) /\
    ((setThrottleSec cfg <= now e - lastSetTS s)%Z ->
     exists v,
       setEF cfg w e s =
       (Some true, set_lastSetTS (now e) (set_efChargeW v s),
        [MqttPublish (ecoPrefix cfg ++ "set")%string v]) /\
       v = clamp (roundQ cfg w) (minChargeW cfg) (maxChargeW cfg)) /\
    (forall w2 e2,
       (setThrottleSec cfg <= now e - lastSetTS s)%Z ->
       (now e2 - now e < setThrottleSec cfg)%Z ->
       let s1 := state_of (setEF cfg w e s) in
       let r2 := setEF cfg w2 e2 s1 in
       result_of r2 = Some false /\ effects_of r2 = [] /\ state_of r2 = s1 /\
       efChargeW (state_of r2) =
         clamp (roundQ cfg w) (minChargeW cfg) (maxChargeW cfg) /\
       lastSetTS (state_of r2) = now e).
Proof.
  intros w e s. split; [apply setEF_throttled|].
  split.
  - intros H. eexists. split; [apply setEF_sent; exact H | reflexivity].
  - intros w2 e2 H1 H2 s1 r2. subst r2 s1.
    rewrite (setEF_sent cfg w e s H1). cbn [state_of fst snd].
    rewrite setEF_throttled by (cbn; exact H2).
    repeat split.
Qed.

Lemma setEF_throttle_witness :
  setEF CFG 987 (Ex.envAt 3) S0 = (Some false, S0, []) /\
  (exists v,
     setEF CFG 987 (Ex.envAt 100) S0 =
     (Some true, set_lastSetTS 100 (set_efChargeW v S0),
      [MqttPublish "ecoflow/set" v]) /\ v == 990) /\
  (let s1 := state_of (setEF CFG 987 (Ex.envAt 100) S0) in
   let r2 := setEF CFG 1500 (Ex.envAt 104) s1 in
   result_of r2 = Some false /\ effects_of r2 = [] /\
   efChargeW (state_of r2) == 990 /\ lastSetTS (state_of r2) = 100%Z).
Proof.
  destruct (setEF_throttle CFG 987 (Ex.envAt 3) S0) as (Hrej & _ & _).
  destruct (setEF_throttle CFG 987 (Ex.envAt 100) S0) as (_ & Hacc & Htwice).
  split; [apply Hrej; reflexivity|].
  split.
  - destruct Hacc as (v & Hv & ->); [discriminate|].
    eexists. split; [exact Hv | reflexivity].
  - destruct (Htwice 1500 (Ex.envAt 104)) as (H1 & H2 & H3 & H4 & H5);
      [discriminate | reflexivity |].
    intros s1 r2. subst s1 r2.
    split; [exact H1|]. split; [exact H2|].
    split; [rewrite H4; reflexivity | exact H5].
Defined.

(** ** Every command goes through the gateway *)

Lemma commands_app o1 o2 : commands (o1 ++ o2) = commands o1 ++ commands o2.
Proof. unfold commands. apply flat_map_app. Qed.

Section CommandsWithin.

Variable P : Q -> Prop.

Lemma cw_quiet {A} (m : M A) :
  (forall e s, commands (effects_of (m e s)) = [] /\
               efChargeW (state_of (m e s)) = efChargeW s) ->
  commandsWithin P m.
Proof. intros H e s. left. apply H. Qed.

Lemma cw_ret {A} (a : A) : commandsWithin P (ret a).
Proof. apply cw_quiet; intros; split; reflexivity. Qed.

Lemma cw_throw {A} : commandsWithin P (@throw A).
Proof. apply cw_quiet; intros; split; reflexivity. Qed.

Lemma cw_get : commandsWithin P get.
Proof. apply cw_quiet; intros; split; reflexivity. Qed.

Lemma cw_ask {A} (g : Env -> A) : commandsWithin P (ask g).
Proof. apply cw_quiet; intros; split; reflexivity. Qed.

Lemma cw_prop v k : commandsWithin P (prop v k).
Proof.
  unfold prop. destruct (getProp v k); [apply cw_ret | apply cw_throw].
Qed.

Lemma cw_JSON_parse v : commandsWithin P (JSON_parse v).
Proof. destruct v; [apply cw_ret | apply cw_throw]. Qed.

Lemma cw_emit x : commands [x] = [] -> commandsWithin P (emit x).
Proof. intros H. apply cw_quiet; intros; split; [exact H | reflexivity]. Qed.

Lemma cw_modify g :
  (forall s, efChargeW (g s) = efChargeW s) -> commandsWithin P (modify g).
Proof. intros H. apply cw_quiet; intros; split; [reflexivity | apply H]. Qed.

(** Sequencing [r1] and then [r2], started where [r1] ended. *)
Lemma cw_seq (s s1 s2 : State) (o1 o2 : list Effect) :
  (commands o1 = [] /\ efChargeW s1 = efChargeW s) \/
  (Forall P (commands o1) /\ P (efChargeW s1)) ->
  (commands o2 = [] /\ efChargeW s2 = efChargeW s1) \/
  (Forall P (commands o2) /\ P (efChargeW s2)) ->
  (commands (o1 ++ o2) = [] /\ efChargeW s2 = efChargeW s) \/
  (Forall P (commands (o1 ++ o2)) /\ P (efChargeW s2)).
Proof.
  rewrite commands_app.
  intros [[H1 E1]|[H1 E1]] [[H2 E2]|[H2 E2]].
  - left. rewrite H1, H2. split; [reflexivity | congruence].
  - right. rewrite H1. split; assumption.
  - right. rewrite H2, app_nil_r, E2. split; assumption.
  - right. split; [apply Forall_app; split; assumption | assumption].
Qed.

Lemma cw_bind {A B} (m : M A) (k : A -> M B) :
  commandsWithin P m -> (forall a, commandsWithin P (k a)) ->
  commandsWithin P (bind m k).
Proof.
  intros Hm Hk e s. specialize (Hm e s). cbv zeta in *. unfold bind.
  destruct (result_of (m e s)) as [a|];
    cbn [state_of effects_of fst snd]; [|exact Hm].
  apply (cw_seq s (state_of (m e s))); [exact Hm | apply Hk].
Qed.

Lemma cw_try_catch (m h : M unit) :
  commandsWithin P m -> commandsWithin P h -> commandsWithin P (try_catch m h).
Proof.
  intros Hm Hh e s. specialize (Hm e s). cbv zeta in *. unfold try_catch.
  destruct (result_of (m e s)) as [a|];
    cbn [state_of effects_of fst snd]; [exact Hm|].
  apply (cw_seq s (state_of (m e s))); [exact Hm | apply Hh].
Qed.

End CommandsWithin.

Section Commands.

Variable cfg : Config.
Hypothesis min_quantized : quantized cfg (minChargeW cfg).
Hypothesis max_quantized : quantized cfg (maxChargeW cfg).
Hypothesis min_le_max : minChargeW cfg <= maxChargeW cfg.

Lemma cw_setEF w : commandsWithin (chargeValueOk cfg) (setEF cfg w).
Proof.
  intros e s. cbv zeta.
  destruct (Z.lt_ge_cases (now e - lastSetTS s) (setThrottleSec cfg)) as [H|H].
  - rewrite setEF_throttled by exact H. left. split; reflexivity.
  - rewrite setEF_sent by exact H. right.
    cbn [commands flat_map effects_of state_of fst snd app efChargeW
         set_lastSetTS set_efChargeW].
    pose proof (clamp_roundQ_ok cfg w min_quantized max_quantized min_le_max).
    split; [constructor; [assumption | constructor] | assumption].
Qed.

End Commands.

(** Decomposes a [commandsWithin] goal along the computation, with the
    gateway's lemma for the configuration at hand. *)
Ltac cmds gw :=
  repeat first
    [ apply gw
    | apply cw_ret | apply cw_throw | apply cw_get | apply cw_ask
    | apply cw_prop | apply cw_JSON_parse
    | apply cw_emit; reflexivity
    | apply cw_modify; intros ?; reflexivity
    | apply cw_bind; [ | intros ? ]
    | apply cw_try_catch
    | match goal with
      | |- commandsWithin _ (if ?b then _ else _) => destruct b
      | |- commandsWithin _ (match ?x with _ => _ end) => destruct x
      end
    | progress cbv zeta ].

Section CommandsOfHandlers.

Variable cfg : Config.
Hypothesis min_quantized : quantized cfg (minChargeW cfg).
Hypothesis max_quantized : quantized cfg (maxChargeW cfg).
Hypothesis min_le_max : minChargeW cfg <= maxChargeW cfg.

Let gw := cw_setEF cfg min_quantized max_quantized min_le_max.

Lemma cw_tick : commandsWithin (chargeValueOk cfg) (tick cfg).
Proof. unfold tick, nowS. cmds gw. Qed.

Lemma cw_handler i : commandsWithin (chargeValueOk cfg) (handler cfg i).
Proof.
  destruct i; cbn [handler].
  - apply cw_tick.
  - unfold onShellyEvent, dispatch, nowS. cmds gw.
  - unfold onQuota, quotaParamMap, storeQuota, nowS. cmds gw.
  - unfold onSetReply. cmds gw.
  - unfold onSwitchSetResult, nowS. cmds gw.
  - unfold onGetStatusResult. cmds gw.
  - unfold onGetConfigResult. cmds gw.
Qed.

End CommandsOfHandlers.

(** C5. With the script's configuration, whatever raw target [setEF] is given
    (however large, or negative), the value it emits and records in
    [efChargeW] is a multiple of the quantization step within
    [[minChargeW, maxChargeW]]; and after any handler invocation that issued a
    command, [efChargeW] is such a value. *)
Theorem commanded_value_quantized_and_bounded :
  (forall w e s v,
      In v (commands (effects_of (setEF CFG w e s))) ->
      chargeValueOk CFG v /\ efChargeW (state_of (setEF CFG w e s)) = v) /\
  (forall e i s,
      commands (snd (step CFG e i s)) <> [] ->
      Forall (chargeValueOk CFG) (commands (snd (step CFG e i s))) /\
      chargeValueOk CFG (efChargeW (fst (step CFG e i s)))).
Proof.
  split.
  - intros w e s v.
    destruct (Z.lt_ge_cases (now e - lastSetTS s) (setThrottleSec CFG)) as [H|H].
    + rewrite setEF_throttled by exact H. intros [].
    + rewrite setEF_sent by exact H.
      cbn [commands flat_map effects_of state_of fst snd app In].
      intros [<-|[]]. split; [apply CFG_clamp_roundQ_ok | reflexivity].
  - intros e i s Hcmd. unfold step in *. cbn [fst snd] in *.
    destruct (cw_handler CFG CFG_min_quantized CFG_max_quantized CFG_min_le_max
                i e s) as [[Hnone _]|Hok].
    + contradiction.
    + exact Hok.
Qed.

(** Targets of minus five kilowatts, of a gigawatt and of 987 W are commanded
    as 400 W, 2400 W and 990 W; the optimizer's command on a tick leaves
    [efChargeW] at such a value. *)
Lemma commanded_value_quantized_and_bounded_witness :
  (chargeValueOk CFG 400 /\
   efChargeW (state_of (setEF CFG (-5000) (Ex.envAt 100) S0)) = 400) /\
  (chargeValueOk CFG 2400 /\
   efChargeW (state_of (setEF CFG 1000000000 (Ex.envAt 100) S0)) = 2400) /\
  (chargeValueOk CFG 990 /\
   efChargeW (state_of (setEF CFG 987 (Ex.envAt 100) S0)) = 990) /\
  (Forall (chargeValueOk CFG)
     (commands (snd (step CFG (Ex.envAt 100) Tick Ex.running))) /\
   chargeValueOk CFG (efChargeW (fst (step CFG (Ex.envAt 100) Tick Ex.running)))).
Proof.
  destruct commanded_value_quantized_and_bounded as [Hset Hstep].
  split; [apply Hset; vm_compute; tauto|].
  split; [apply Hset; vm_compute; tauto|].
  split; [apply Hset; vm_compute; tauto|].
  apply Hstep. vm_compute. discriminate.
Defined.

(** ** The rolling window *)

Lemma gtQ_spec a b : gtQ a b = true <-> b < a.
Proof. unfold gtQ. apply ltQ_spec. Qed.

Lemma gtQ_false a b : gtQ a b = false <-> a <= b.
Proof. unfold gtQ. apply ltQ_false. Qed.

Lemma peakStep_ge_acc acc m : acc <= peakStep acc m.
Proof.
  unfold peakStep. destruct (gtQ (power m) acc) eqn:E.
  - apply gtQ_spec in E. apply Qlt_le_weak. exact E.
  - apply Qle_refl.
Qed.

Lemma peakStep_ge_power acc m : power m <= peakStep acc m.
Proof.
  unfold peakStep. destruct (gtQ (power m) acc) eqn:E.
  - apply Qle_refl.
  - apply gtQ_false in E. exact E.
Qed.

Lemma fold_peak_ge_acc ms : forall acc, acc <= fold_left peakStep ms acc.
Proof.
  induction ms as [|m ms IH]; intros acc; cbn [fold_left].
  - apply Qle_refl.
  - eapply Qle_trans; [apply (peakStep_ge_acc acc m) | apply IH].
Qed.

Lemma fold_peak_ge_power ms :
  forall acc m, In m ms -> power m <= fold_left peakStep ms acc.
Proof.
  induction ms as [|m0 ms IH]; intros acc m Hin; cbn [fold_left].
  - destruct Hin.
  - destruct Hin as [->|Hin].
    + eapply Qle_trans; [apply (peakStep_ge_power acc m) | apply fold_peak_ge_acc].
    + apply IH. exact Hin.
Qed.

Lemma fold_peak_attained ms :
  forall acc,
    fold_left peakStep ms acc = acc \/
    exists m, In m ms /\ fold_left peakStep ms acc = power m.
Proof.
  induction ms as [|m0 ms IH]; intros acc; cbn [fold_left].
  - left. reflexivity.
  - destruct (IH (peakStep acc m0)) as [E|(m & Hin & E)].
    + rewrite E. unfold peakStep. destruct (gtQ (power m0) acc).
      * right. exists m0. split; [left; reflexivity | reflexivity].
      * left. reflexivity.
    + right. exists m. split; [right; exact Hin | exact E].
Qed.

(** The loop keeps, in order, the samples newer than the cutoff and folds
    their powers into the running peak. *)
Lemma pruneLoop_spec cutoff ms :
  forall maxp kept,
    pruneLoop cutoff ms maxp kept =
    (fold_left peakStep (filter (fun m => (ts m >? cutoff)%Z) ms) maxp,
     kept ++ filter (fun m => (ts m >? cutoff)%Z) ms).
Proof.
  induction ms as [|m ms IH]; intros maxp kept; cbn [pruneLoop filter].
  - rewrite app_nil_r. reflexivity.
  - destruct (ts m >? cutoff)%Z.
    + rewrite IH. cbn [fold_left]. rewrite <- app_assoc. reflexivity.
    + apply IH.
Qed.

Lemma newer_than_cutoff cfg t m :
  (ts m >? t - windowSec cfg)%Z = inWindow cfg t m.
Proof.
  unfold inWindow.
  destruct (Z.gtb_spec (ts m) (t - windowSec cfg)),
           (Z.ltb_spec (t - ts m) (windowSec cfg)); (reflexivity || lia).
Qed.

Section Window.

Variable cfg : Config.

Lemma updateMaxP10s_result e s :
  updateMaxP10s cfg e s =
  (Some tt,
   set_maxP10s (fold_left peakStep (filter (inWindow cfg (now e)) (measurements s)) 0)
     (set_measurements (filter (inWindow cfg (now e)) (measurements s)) s),
   []).
Proof.
  unfold updateMaxP10s. mstep. rewrite pruneLoop_spec. cbn [fst snd app].
  rewrite (filter_ext _ _ (newer_than_cutoff cfg (now e))).
  reflexivity.
Qed.

End Window.

(** C6 (as amended).  [updateMaxP10s] at time [now] keeps, in their order,
    exactly the samples with [now - ts < windowSec] (a sample as old as the
    window length is dropped), and sets the peak to the largest of 0 and the
    powers of the kept samples: it is at least 0 and at least every kept power,
    it is 0 or the power of a kept sample, and it is 0 when no sample is
    kept. *)
Theorem updateMaxP10s_prunes_and_peaks (cfg : Config) :
  forall e s,
    let s' := state_of (updateMaxP10s cfg e s) in
    measurements s' = filter (inWindow cfg (now e)) (measurements s) /\
    (forall m, In m (measurements s') <->
               In m (measurements s) /\ (now e - ts m < windowSec cfg)%Z) /\
    0 <= maxP10s s' /\
    (forall m, In m (measurements s') -> power m <= maxP10s s') /\
    (maxP10s s' = 0 \/
     exists m, In m (measurements s') /\ maxP10s s' = power m) /\
    (measurements s' = [] -> maxP10s s' = 0).
Proof.
  intros e s s'. subst s'. rewrite updateMaxP10s_result.
  cbn [state_of fst snd measurements maxP10s set_maxP10s set_measurements].
  split; [reflexivity|].
  split.
  { intros m. rewrite filter_In. unfold inWindow. rewrite Z.ltb_lt. tauto. }
  split; [apply fold_peak_ge_acc|].
  split; [intros m Hin; apply fold_peak_ge_power; exact Hin|].
  split; [apply fold_peak_attained|].
  intros ->. reflexivity.
Qed.

(** At second 100 a window holding samples of seconds 85, 91 and 97 keeps the
    last two; the peak is the larger of their powers. *)
Lemma updateMaxP10s_prunes_and_peaks_witness :
  let s :=
    set_measurements
      [ {| ts := 85; power := 900 |}; {| ts := 91; power := 450.5 |};
        {| ts := 97; power := 430 |} ] Ex.running in
  let s' := state_of (updateMaxP10s CFG (Ex.envAt 100) s) in
  measurements s' =
    [ {| ts := 91; power := 450.5 |}; {| ts := 97; power := 430 |} ] /\
  power {| ts := 91; power := 450.5 |} <= maxP10s s' /\
  maxP10s s' = 450.5.
Proof.
  intros s s'.
  destruct (updateMaxP10s_prunes_and_peaks CFG (Ex.envAt 100) s)
    as (Hkept & _ & _ & Hge & _ & _).
  split; [exact Hkept|].
  split; [apply Hge; left; reflexivity | reflexivity].
Defined.

(** C6 as the specification states it fails on a sample exactly as old as the
    window length: at second 100 a sample of second 90 qualifies under
    [now - t <= window_length], so the stated peak is its 500 W and the stated
    window holds it, but [updateMaxP10s] drops it and reports 0. *)
Lemma updateMaxP10s_boundary_counterexample :
  let ms := [ {| ts := 90; power := 500 |} ] in
  let s' := state_of (updateMaxP10s CFG (Ex.envAt 100)
                        (set_measurements ms Ex.running)) in
  spec_window CFG 100 ms = ms /\
  spec_peak CFG 100 ms = 500 /\
  measurements s' = [] /\
  maxP10s s' = 0 /\
  ~ (measurements s' = spec_window CFG 100 ms /\
     maxP10s s' == spec_peak CFG 100 ms).
Proof.
  repeat split; intros [H _]; discriminate H.
Qed.

(** The peak never goes below 0: with a single fresh sample of negative power
    the reported peak is 0, not that power. *)
Lemma updateMaxP10s_negative_sample_example :
  maxP10s (state_of (updateMaxP10s CFG (Ex.envAt 100)
                       (set_measurements [ {| ts := 99; power := -30 |} ]
                          Ex.running))) = 0.
Proof. reflexivity. Qed.

(** ** Invariants maintained by computations *)

Section Keeps.

Variable I : State -> Prop.

Lemma keeps_ret {A} (a : A) : keeps I (ret a).
Proof. intros e s H; exact H. Qed.

Lemma keeps_throw {A} : keeps I (@throw A).
Proof. intros e s H; exact H. Qed.

Lemma keeps_get : keeps I get.
Proof. intros e s H; exact H. Qed.

Lemma keeps_ask {A} (g : Env -> A) : keeps I (ask g).
Proof. intros e s H; exact H. Qed.

Lemma keeps_emit x : keeps I (emit x).
Proof. intros e s H; exact H. Qed.

Lemma keeps_prop v k : keeps I (prop v k).
Proof. unfold prop. destruct (getProp v k); intros e s H; exact H. Qed.

Lemma keeps_JSON_parse v : keeps I (JSON_parse v).
Proof. destruct v; intros e s H; exact H. Qed.

Lemma keeps_modify g : (forall s, I s -> I (g s)) -> keeps I (modify g).
Proof. intros H e s Hs. apply H. exact Hs. Qed.

Lemma keeps_bind {A B} (m : M A) (k : A -> M B) :
  keeps I m -> (forall a, keeps I (k a)) -> keeps I (bind m k).
Proof.
  intros Hm Hk e s Hs. unfold bind.
  destruct (result_of (m e s)) as [a|]; cbn [state_of fst snd].
  - apply (Hk a e). apply Hm. exact Hs.
  - apply Hm. exact Hs.
Qed.

Lemma keeps_try_catch (m h : M unit) :
  keeps I m -> keeps I h -> keeps I (try_catch m h).
Proof.
  intros Hm Hh e s Hs. unfold try_catch.
  destruct (result_of (m e s)); cbn [state_of fst snd].
  - apply Hm. exact Hs.
  - apply (Hh e). apply Hm. exact Hs.
Qed.

End Keeps.

(** Decomposes a [keeps] goal along the computation; [base] settles the
    computations that have a lemma of their own, [asg] the assignments. *)
Ltac keep base asg :=
  repeat first
    [ base
    | apply keeps_ret | apply keeps_throw | apply keeps_get | apply keeps_ask
    | apply keeps_emit | apply keeps_prop | apply keeps_JSON_parse
    | apply keeps_modify; solve [asg]
    | apply keeps_bind; [ | intros ? ]
    | apply keeps_try_catch
    | match goal with
      | |- keeps _ (if ?b then _ else _) => destruct b
      | |- keeps _ (match ?x with _ => _ end) => destruct x
      end
    | progress cbv zeta ].

(** ** Switch-off, trip and the rolling window *)

Ltac window_asg :=
  let s := fresh "s" in
  let H1 := fresh in
  let H2 := fresh in
  intros s [H1 H2]; split; first [exact H1 | exact H2 | reflexivity].

Section WindowEmpty.

Variable cfg : Config.

Lemma updateMaxP10s_empty e s :
  measurements s = [] ->
  windowEmpty (state_of (updateMaxP10s cfg e s)).
Proof.
  intros H. rewrite updateMaxP10s_result, H. split; reflexivity.
Qed.

Lemma keeps_updateMaxP10s : keeps windowEmpty (updateMaxP10s cfg).
Proof. intros e s [H _]. apply updateMaxP10s_empty. exact H. Qed.

Lemma clearWindow_empties e s : windowEmpty (state_of (clearWindow e s)).
Proof. split; reflexivity. Qed.

Lemma keeps_tick : keeps windowEmpty (tick cfg).
Proof.
  unfold tick, nowS.
  keep ltac:(apply keeps_updateMaxP10s) ltac:(window_asg).
Qed.

Lemma keeps_handleToggle info : keeps windowEmpty (handleToggle info).
Proof.
  unfold handleToggle, clearWindow.
  keep ltac:(fail) ltac:(window_asg).
Qed.

Lemma keeps_handleOvercurrent : keeps windowEmpty handleOvercurrent.
Proof.
  unfold handleOvercurrent, clearWindow, nowS.
  keep ltac:(fail) ltac:(window_asg).
Qed.

End WindowEmpty.

Section Dispatch.

Variable cfg : Config.

Lemma hasKind_inv k ev :
  hasKind k (ShellyEvent ev) = true ->
  exists info, switchInfo ev = Some info /\ eventName info = JStr k.
Proof.
  unfold hasKind, switchEventKind.
  destruct (switchInfo ev) as [info|]; [|discriminate].
  destruct (eventName info) as [| |b|x|k'|xs|fs] eqn:E; try discriminate.
  intros H. apply String.eqb_eq in H. subst k'.
  exists info. split; [reflexivity | exact E].
Qed.

Lemma step_switch_notification ev info e s :
  switchInfo ev = Some info ->
  step cfg e (ShellyEvent ev) s =
  (state_of (dispatch cfg (eventName info) info e
               (set_lastShellyEvtTS (now e) s)),
   effects_of (dispatch cfg (eventName info) info e
                 (set_lastShellyEvtTS (now e) s))).
Proof.
  intros H. unfold step. cbn [handler]. rewrite onShellyEvent_spec, H.
  reflexivity.
Qed.

Lemma step_ignored_notification ev e s :
  switchInfo ev = None -> step cfg e (ShellyEvent ev) s = (s, []).
Proof.
  intros H. unfold step. cbn [handler]. rewrite onShellyEvent_spec, H.
  reflexivity.
Qed.

(** A guarded [info] is truthy, so reading its fields does not throw. *)
Lemma switchInfo_getProp ev info k :
  switchInfo ev = Some info -> getProp info k = Some (infoField k info).
Proof.
  unfold switchInfo, infoField.
  destruct (truthy ev); [|discriminate].
  destruct (getProp ev "info") as [i|]; [|discriminate].
  destruct (truthy i) eqn:Et; [|discriminate].
  destruct (getProp i "component") as [c|]; [|discriminate].
  destruct (isStr c "switch:0"); [|discriminate].
  intros [= <-]. destruct i; try discriminate; reflexivity.
Qed.

Lemma keeps_dispatch et info :
  match et with
  | JStr k => (k =? "power_measurement") || (k =? "power_update") = false
  | _ => True
  end ->
  keeps windowEmpty (dispatch cfg et info).
Proof.
  unfold dispatch.
  destruct et as [| |b|x|k|xs|fs]; intros H; cbn [isStr orb];
    try apply keeps_ret.
  rewrite H.
  destruct (k =? "toggle"); [apply keeps_handleToggle|].
  destruct (k =? "overcurrent"); [apply keeps_handleOvercurrent|].
  unfold handleOvercurrentClear, handleConfigChanged, pollCurrentLimit.
  keep ltac:(fail) ltac:(window_asg).
Qed.

Lemma keeps_handler i :
  isPower i = false -> keeps windowEmpty (handler cfg i).
Proof.
  destruct i as [|ev|msg|msg|r e'|r e'|r e']; cbn [handler]; intros Hp.
  - apply keeps_tick.
  - intros e s Hs. rewrite onShellyEvent_spec.
    destruct (switchInfo ev) as [info|] eqn:Einfo; [|exact Hs].
    mstep. apply keeps_dispatch; [|destruct Hs; split; assumption].
    unfold isPower, hasKind, switchEventKind in Hp. rewrite Einfo in Hp.
    destruct (eventName info); try exact Logic.I. exact Hp.
  - unfold onQuota, quotaParamMap, storeQuota, nowS. keep ltac:(fail) ltac:(window_asg).
  - unfold onSetReply. keep ltac:(fail) ltac:(window_asg).
  - unfold onSwitchSetResult, nowS. keep ltac:(fail) ltac:(window_asg).
  - unfold onGetStatusResult. keep ltac:(fail) ltac:(window_asg).
  - unfold onGetConfigResult. keep ltac:(fail) ltac:(window_asg).
Qed.

Lemma windowEmpty_run tr :
  forall s,
    windowEmpty s ->
    forallb (fun ei => negb (isPower (snd ei))) tr = true ->
    windowEmpty (fst (run cfg tr s)).
Proof.
  induction tr as [|[e i] tr IH]; intros s Hs Hno; cbn [run fst].
  - exact Hs.
  - cbn [forallb snd] in Hno. apply andb_true_iff in Hno as [Hi Htr].
    apply IH; [|exact Htr].
    apply negb_true_iff in Hi. apply (keeps_handler i Hi e s Hs).
Qed.

Lemma toggle_off_clears e i s :
  isToggleOff i = true ->
  on (fst (step cfg e i s)) = false /\ windowEmpty (fst (step cfg e i s)).
Proof.
  unfold isToggleOff. intros H. apply andb_true_iff in H as [Hk Hst].
  destruct i as [|ev|msg|msg|r e'|r e'|r e']; try discriminate.
  destruct (hasKind_inv _ _ Hk) as (info & Einfo & Ename).
  rewrite Einfo in Hst.
  rewrite (step_switch_notification ev info e s Einfo), Ename.
  cbn [fst]. unfold dispatch. cbn [isStr String.eqb Ascii.eqb Bool.eqb].
  unfold handleToggle, prop.
  rewrite (switchInfo_getProp ev info "state" Einfo).
  destruct (infoField "state" info) as [| |b|x|k|xs|fs]; try discriminate.
  destruct b; [discriminate|].
  mstep. split; [reflexivity | split; reflexivity].
Qed.

Lemma trip_clears e i s :
  isTrip i = true ->
  let s' := fst (step cfg e i s) in
  oc s' = true /\ on s' = false /\ windowEmpty s'.
Proof.
  intros H. destruct i as [|ev|msg|msg|r e'|r e'|r e']; try discriminate.
  destruct (hasKind_inv _ _ H) as (info & Einfo & Ename).
  rewrite (step_switch_notification ev info e s Einfo), Ename.
  cbn [fst]. unfold dispatch. cbn [isStr String.eqb Ascii.eqb Bool.eqb orb].
  repeat split.
Qed.

End Dispatch.

(** C7. A toggle notification that reports the relay off, and a fault-trip
    notification, leave the rolling window empty and the peak at 0 as soon as
    they are handled; the trip also sets the latch and forces [on] to false.
    On an empty window [updateMaxP10s] reports 0 at any time, and the window
    stays empty with peak 0 along any sequence of invocations without a power
    notification. *)
Theorem window_cleared_on_switch_off_and_trip (cfg : Config) :
  (forall e i s,
      isToggleOff i = true ->
      let s' := fst (step cfg e i s) in
      on s' = false /\ measurements s' = [] /\ maxP10s s' = 0) /\
  (forall e i s,
      isTrip i = true ->
      let s' := fst (step cfg e i s) in
      oc s' = true /\ on s' = false /\ measurements s' = [] /\ maxP10s s' = 0) /\
  (forall e s,
      measurements s = [] ->
      let s' := state_of (updateMaxP10s cfg e s) in
      measurements s' = [] /\ maxP10s s' = 0) /\
  (forall tr s,
      measurements s = [] -> maxP10s s = 0 ->
      forallb (fun ei => negb (isPower (snd ei))) tr = true ->
      let s' := fst (run cfg tr s) in
      measurements s' = [] /\ maxP10s s' = 0).
Proof.
  split; [|split; [|split]].
  - intros e i s H. destruct (toggle_off_clears cfg e i s H) as (Hon & Hm & Hp).
    repeat split; assumption.
  - intros e i s H. destruct (trip_clears cfg e i s H) as (Hoc & Hon & Hm & Hp).
    repeat split; assumption.
  - intros e s H. apply updateMaxP10s_empty. exact H.
  - intros tr s Hm Hp Hno. apply windowEmpty_run; [split; assumption | exact Hno].
Qed.

(** With two samples in the window, a toggle to off and a trip each empty it;
    the ticks, the telemetry and the toggle back on that follow leave the peak
    at 0. *)
Lemma window_cleared_on_switch_off_and_trip_witness :
  let loaded :=
    set_maxP10s 620
      (set_measurements
         [ {| ts := 95; power := 620 |}; {| ts := 98; power := 600 |} ]
         Ex.running) in
  let off := fst (step CFG (Ex.envAt 100) (Ex.toggle false) loaded) in
  let tripped := fst (step CFG (Ex.envAt 100) Ex.overcurrent loaded) in
  let later :=
    [ (Ex.envAt 101, Tick); (Ex.envAt 102, Ex.quota [("powOutSumW", JNum 50)]);
      (Ex.envAt 103, Ex.toggle true); (Ex.envAt 104, Tick) ] in
  (on off = false /\ measurements off = [] /\ maxP10s off = 0) /\
  (oc tripped = true /\ on tripped = false /\ measurements tripped = [] /\
   maxP10s tripped = 0) /\
  maxP10s (state_of (updateMaxP10s CFG (Ex.envAt 101) off)) = 0 /\
  maxP10s (fst (run CFG later off)) = 0.
Proof.
  intros loaded off tripped later.
  destruct (window_cleared_on_switch_off_and_trip CFG)
    as (Hoff & Htrip & Hpeak & Hrun).
  split; [apply Hoff; reflexivity|].
  split; [apply Htrip; reflexivity|].
  split; [apply Hpeak; reflexivity|].
  apply Hrun; reflexivity.
Defined.

(** ** Power notifications while the relay is off *)

Section PowerWhileOff.

Variable cfg : Config.

Lemma handlePower_off info e s :
  on s = false -> handlePower cfg info e s = (Some tt, s, []).
Proof. intros H. unfold handlePower. mstep. rewrite H. reflexivity. Qed.

Lemma power_notification_off ev e s :
  isPower (ShellyEvent ev) = true ->
  on s = false ->
  step cfg e (ShellyEvent ev) s = (set_lastShellyEvtTS (now e) s, []).
Proof.
  intros Hp Hon. unfold isPower in Hp. apply orb_true_iff in Hp.
  assert (exists info, switchInfo ev = Some info /\
            dispatch cfg (eventName info) info = handlePower cfg info)
    as (info & Einfo & Ed).
  { destruct Hp as [Hk|Hk]; destruct (hasKind_inv _ _ Hk) as (info & E1 & E2);
      exists info; (split; [exact E1 | rewrite E2; reflexivity]). }
  rewrite (step_switch_notification cfg ev info e s Einfo), Ed.
  rewrite handlePower_off by exact Hon. reflexivity.
Qed.

End PowerWhileOff.

(** C10 (as amended).  While [on] is false, [handlePower] changes nothing and
    emits nothing, for any payload; the event handler that calls it has by
    then stamped [lastShellyEvtTS], so handling a power notification leaves a
    state that differs from the previous one in that timestamp only: no sample
    is appended, the peak is not recomputed, no other field is touched and
    nothing is asked of the runtime. *)
Theorem power_notification_while_off (cfg : Config) :
  forall ev e s,
    isPower (ShellyEvent ev) = true ->
    on s = false ->
    (forall info, handlePower cfg info e s = (Some tt, s, [])) /\
    step cfg e (ShellyEvent ev) s = (set_lastShellyEvtTS (now e) s, []) /\
    measurements (fst (step cfg e (ShellyEvent ev) s)) = measurements s /\
    maxP10s (fst (step cfg e (ShellyEvent ev) s)) = maxP10s s.
Proof.
  intros ev e s Hp Hon.
  split; [intros info; apply handlePower_off; exact Hon|].
  rewrite (power_notification_off cfg ev e s Hp Hon).
  repeat split.
Qed.

Lemma power_notification_while_off_witness :
  step CFG (Ex.envAt 100) (Ex.powerUpdate 500) S0 =
    (set_lastShellyEvtTS 100 S0, []) /\
  measurements (fst (step CFG (Ex.envAt 100) (Ex.powerUpdate 500) S0)) = [].
Proof.
  destruct (power_notification_while_off CFG
              (JObj [("info",
                      JObj [("component", JStr "switch:0");
                            ("event", JStr "power_update");
                            ("apower", JNum 500)])])
              (Ex.envAt 100) S0 eq_refl eq_refl) as (_ & Hstep & Hm & _).
  split; [exact Hstep | exact Hm].
Defined.

(** C10 as stated fails: with the relay off, handling a power notification at
    second 100 does not leave the control state unchanged, because the event
    handler records the time of the notification in [lastShellyEvtTS]. *)
Lemma power_notification_while_off_counterexample :
  on S0 = false /\
  isPower (Ex.powerUpdate 500) = true /\
  lastShellyEvtTS S0 = 0%Z /\
  lastShellyEvtTS (fst (step CFG (Ex.envAt 100) (Ex.powerUpdate 500) S0)) = 100%Z /\
  fst (step CFG (Ex.envAt 100) (Ex.powerUpdate 500) S0) <> S0.
Proof.
  repeat split. intros H. apply (f_equal lastShellyEvtTS) in H.
  discriminate H.
Qed.

(** ** The optimizer *)


Section Optimizer.

Variable cfg : Config.




End Optimizer.



(** ** The restore controller *)

Section Restore.

Variable cfg : Config.

Lemma tryRestore_not_latched e s :
  oc s = false -> tryRestore cfg e s = (Some tt, s, []).
Proof. intros H. unfold tryRestore. mstep. rewrite H. reflexivity. Qed.


End Restore.




(** ** What a computation asks of the runtime *)

Section EmitsOnly.

Variable P : Effect -> bool.

Lemma eo_ret {A} (a : A) : emitsOnly P (ret a).
Proof. intros e s; reflexivity. Qed.

Lemma eo_throw {A} : emitsOnly P (@throw A).
Proof. intros e s; reflexivity. Qed.

Lemma eo_get : emitsOnly P get.
Proof. intros e s; reflexivity. Qed.

Lemma eo_ask {A} (g : Env -> A) : emitsOnly P (ask g).
Proof. intros e s; reflexivity. Qed.

Lemma eo_modify g : emitsOnly P (modify g).
Proof. intros e s; reflexivity. Qed.

Lemma eo_prop v k : emitsOnly P (prop v k).
Proof. unfold prop. destruct (getProp v k); intros e s; reflexivity. Qed.

Lemma eo_JSON_parse v : emitsOnly P (JSON_parse v).
Proof. destruct v; intros e s; reflexivity. Qed.

Lemma eo_emit x : P x = true -> emitsOnly P (emit x).
Proof. intros H e s. cbn. rewrite H. reflexivity. Qed.

Lemma eo_bind {A B} (m : M A) (k : A -> M B) :
  emitsOnly P m -> (forall a, emitsOnly P (k a)) -> emitsOnly P (bind m k).
Proof.
  intros Hm Hk e s. unfold bind.
  destruct (result_of (m e s)) as [a|]; cbn [effects_of snd].
  - rewrite forallb_app. fold (effects_of (m e s)). rewrite Hm.
    apply (Hk a).
  - apply Hm.
Qed.

Lemma eo_try_catch (m h : M unit) :
  emitsOnly P m -> emitsOnly P h -> emitsOnly P (try_catch m h).
Proof.
  intros Hm Hh e s. unfold try_catch.
  destruct (result_of (m e s)); cbn [effects_of snd].
  - apply Hm.
  - rewrite forallb_app. fold (effects_of (m e s)). rewrite Hm. apply Hh.
Qed.

End EmitsOnly.

Ltac emitting :=
  repeat first
    [ apply eo_ret | apply eo_throw | apply eo_get | apply eo_ask
    | apply eo_modify | apply eo_prop | apply eo_JSON_parse
    | apply eo_emit; reflexivity
    | apply eo_bind; [ | intros ? ]
    | apply eo_try_catch
    | match goal with
      | |- emitsOnly _ (if ?b then _ else _) => destruct b
      | |- emitsOnly _ (match ?x with _ => _ end) => destruct x
      end
    | progress cbv zeta ].

(** ** The watchdogs *)

Section Watchdogs.

Variable cfg : Config.






End Watchdogs.




(** ** The telemetry ingestor *)

Lemma Math_max_ge_l a b : a <= Math_max a b.
Proof.
  unfold Math_max. destruct (Qle_bool a b) eqn:E.
  - apply Qle_bool_iff. exact E.
  - apply Qle_refl.
Qed.

Lemma Math_max_ge_r a b : b <= Math_max a b.
Proof.
  unfold Math_max. destruct (Qle_bool a b) eqn:E.
  - apply Qle_refl.
  - apply Qlt_le_weak. apply Qnot_le_lt. intros H.
    apply Qle_bool_iff in H. congruence.
Qed.

Lemma Math_max_of_ge a b : a <= b -> Math_max a b = b.
Proof.
  intros H. unfold Math_max. apply Qle_bool_iff in H. rewrite H. reflexivity.
Qed.

Lemma Math_max_of_lt a b : b < a -> Math_max a b = a.
Proof.
  intros H. unfold Math_max. destruct (Qle_bool a b) eqn:E; [|reflexivity].
  apply Qle_bool_iff in E. exfalso. exact (Qlt_not_le _ _ H E).
Qed.

(** A parameter map is truthy or the empty object, so reading it never
    throws. *)
Lemma quotaParams_getProp data p k :
  quotaParams data = Some p -> getProp p k = Some (infoField k p).
Proof.
  unfold quotaParams, infoField.
  destruct (getProp data "param") as [a|]; [|discriminate].
  destruct (truthy a) eqn:Ea.
  { intros [= <-]. destruct a; try discriminate; reflexivity. }
  destruct (getProp data "params") as [b|]; [|discriminate].
  destruct (truthy b) eqn:Eb.
  { intros [= <-]. destruct b; try discriminate; reflexivity. }
  destruct (truthy data) eqn:Ed.
  { intros [= <-]. destruct data; try discriminate; reflexivity. }
  intros [= <-]. reflexivity.
Qed.

Lemma onQuota_frame msg :
  preserves (fun s => (on s, oc s, voltageV s, currentLimitA s, efChargeW s,
                       lastSetTS s, lastOptTS s, measurements s, maxP10s s))
    (onQuota msg).
Proof. unfold onQuota, quotaParamMap, storeQuota, nowS. frame. Qed.

Lemma onQuota_silent msg : emitsOnly (fun _ => false) (onQuota msg).
Proof. unfold onQuota, quotaParamMap, storeQuota, nowS. emitting. Qed.

Lemma onQuota_state msg e s :
  state_of (onQuota msg e s) =
  state_of ((data <- JSON_parse msg ;; p <- quotaParamMap data ;; storeQuota p)
              e (set_lastQuotaTS (now e) s)).
Proof.
  unfold onQuota, nowS. rewrite bind_ask_l, bind_modify_l.
  apply try_catch_ret_state.
Qed.

(** Reading the parameter map changes nothing; it yields [quotaParams]. *)
Lemma quotaParamMap_result data e s :
  quotaParamMap data e s = (quotaParams data, s, []).
Proof.
  unfold quotaParamMap, quotaParams, prop.
  destruct (getProp data "param") as [a|]; [|reflexivity].
  rewrite bind_ret_l. destruct (truthy a); [reflexivity|].
  destruct (getProp data "params") as [b|]; [|reflexivity].
  rewrite bind_ret_l. destruct (truthy b); [reflexivity|].
  destruct (truthy data); reflexivity.
Qed.

Lemma storeQuota_state p e s :
  (forall k, getProp p k = Some (infoField k p)) ->
  efAcOutW (state_of (storeQuota p e s)) = acOutAfter p s /\
  efStandbyW (state_of (storeQuota p e s)) = standbyAfter p s /\
  lastQuotaTS (state_of (storeQuota p e s)) = lastQuotaTS s.
Proof.
  intros Hget. unfold storeQuota, acOutAfter, standbyAfter, prop.
  rewrite !Hget.
  destruct (infoField "powGetAcHvOut" p); mstep;
    destruct (infoField "powOutSumW" p); mstep;
    destruct (infoField "outputPower" p); repeat split.
Qed.

Lemma onQuota_stamps msg e s : lastQuotaTS (state_of (onQuota msg e s)) = now e.
Proof.
  rewrite onQuota_state.
  change (now e) with (lastQuotaTS (set_lastQuotaTS (now e) s)).
  apply (preserves_bind lastQuotaTS); [apply preserves_JSON_parse|].
  intros data. unfold quotaParamMap, storeQuota. frame.
Qed.

Lemma onQuota_malformed msg e s :
  match msg with
  | None => True
  | Some data => quotaParams data = None
  end ->
  state_of (onQuota msg e s) = set_lastQuotaTS (now e) s.
Proof.
  intros H. rewrite onQuota_state.
  destruct msg as [data|]; [|reflexivity].
  unfold JSON_parse. rewrite bind_ret_l.
  unfold bind. rewrite quotaParamMap_result, H. reflexivity.
Qed.

Lemma onQuota_parsed data p e s :
  quotaParams data = Some p ->
  efAcOutW (state_of (onQuota (Some data) e s)) = acOutAfter p s /\
  efStandbyW (state_of (onQuota (Some data) e s)) = standbyAfter p s.
Proof.
  intros Hp.
  assert (Hget : forall k, getProp p k = Some (infoField k p)).
  { intros k. apply (quotaParams_getProp data). exact Hp. }
  rewrite onQuota_state. unfold JSON_parse. rewrite bind_ret_l.
  rewrite (bind_result _ _ _ _ _ _ _
             (eq_trans (quotaParamMap_result data e _) (f_equal (fun o => (o, _, [])) Hp))).
  cbn [state_of fst snd].
  fold (state_of (storeQuota p e (set_lastQuotaTS (now e) s))).
  destruct (storeQuota_state p e (set_lastQuotaTS (now e) s) Hget)
    as (H1 & H2 & _).
  split; assumption.
Qed.

(** The ingestor as the specification words it: an AC-output power found
    under either field name is stored as its absolute value. *)
Lemma acOutAfter_first_field p s x :
  infoField "powGetAcHvOut" p = JNum x ->
  acOutAfter p s == Qabs x /\ 0 <= acOutAfter p s.
Proof.
  intros H. unfold acOutAfter. rewrite H. unfold Math_abs.
  rewrite (Math_max_of_ge 0 (Qabs x) (Qabs_nonneg x)).
  split; [reflexivity | apply Qabs_nonneg].
Qed.

(** C9 (as amended).  Every telemetry message stamps [lastQuotaTS].  When the
    message parses and its parameter map ([param], else [params], else the
    message itself) carries a numeric [powGetAcHvOut], [efAcOutW] becomes its
    absolute value; when that field is not numeric but [powOutSumW] is,
    [efAcOutW] becomes that value with negative values replaced by 0 (not by
    their absolute value).  Either way the stored value is non-negative.  A
    numeric [outputPower] is stored in [efStandbyW] raised to at least 20.
    A message that does not parse, or whose parameter map cannot be read,
    changes neither field, and fields that are absent or not numeric leave the
    corresponding state field as it was. *)
Theorem onQuota_ingests (msg : option JsVal) (e : Env) (s : State) :
  let s' := state_of (onQuota msg e s) in
  lastQuotaTS s' = now e /\
  (match msg with None => True | Some data => quotaParams data = None end ->
   efAcOutW s' = efAcOutW s /\ efStandbyW s' = efStandbyW s) /\
  (forall data p,
      msg = Some data -> quotaParams data = Some p ->
      (forall x, infoField "powGetAcHvOut" p = JNum x ->
                 efAcOutW s' == Qabs x /\ 0 <= efAcOutW s') /\
      (forall y, (forall x, infoField "powGetAcHvOut" p <> JNum x) ->
                 infoField "powOutSumW" p = JNum y ->
                 0 <= efAcOutW s' /\
                 (0 <= y -> efAcOutW s' = y) /\
                 (y < 0 -> efAcOutW s' = 0)) /\
      ((forall x, infoField "powGetAcHvOut" p <> JNum x) ->
       (forall y, infoField "powOutSumW" p <> JNum y) ->
       efAcOutW s' = efAcOutW s) /\
      (forall z, infoField "outputPower" p = JNum z ->
                 20 <= efStandbyW s' /\
                 (20 <= z -> efStandbyW s' = z) /\
                 (z < 20 -> efStandbyW s' = 20)) /\
      ((forall z, infoField "outputPower" p <> JNum z) ->
       efStandbyW s' = efStandbyW s)).
Proof.
  intros s'. subst s'.
  split; [apply onQuota_stamps|].
  split.
  - intros H. rewrite (onQuota_malformed msg e s H). split; reflexivity.
  - intros data p -> Hp.
    destruct (onQuota_parsed data p e s Hp) as [-> ->].
    split; [|split; [|split; [|split]]].
    + intros x Hx. apply acOutAfter_first_field. exact Hx.
    + intros y Hno Hy. unfold acOutAfter. rewrite Hy.
      destruct (infoField "powGetAcHvOut" p) as [| |b|x|k|xs|fs];
        try (split; [apply Math_max_ge_l
                    | split; [apply Math_max_of_ge | apply Math_max_of_lt]]).
      exfalso. apply (Hno x). reflexivity.
    + intros Hno1 Hno2. unfold acOutAfter.
      destruct (infoField "powGetAcHvOut" p) as [| |b|x|k|xs|fs];
        try (destruct (infoField "powOutSumW" p) as [| |b'|y|k'|xs'|fs'];
             try reflexivity; exfalso; apply (Hno2 y); reflexivity).
      exfalso. apply (Hno1 x). reflexivity.
    + intros z Hz. unfold standbyAfter. rewrite Hz.
      split; [apply Math_max_ge_l
             | split; [apply Math_max_of_ge | apply Math_max_of_lt]].
    + intros Hno. unfold standbyAfter.
      destruct (infoField "outputPower" p) as [| |b|z|k|xs|fs];
        try reflexivity.
      exfalso. apply (Hno z). reflexivity.
Qed.

(** A report of [powGetAcHvOut = -180.5] and [outputPower = 12] stores 180.5 W
    of load and the minimum overhead of 20 W; a report of [powOutSumW = 75]
    stores 75 W; a message that did not parse stores nothing. *)
Lemma onQuota_ingests_witness :
  let m1 := JObj [("params", JObj [("powGetAcHvOut", JNum (-180.5));
                                   ("outputPower", JNum 12)])] in
  let m2 := JObj [("param", JObj [("powOutSumW", JNum 75)])] in
  (efAcOutW (state_of (onQuota (Some m1) (Ex.envAt 100) S0)) == 180.5 /\
   efStandbyW (state_of (onQuota (Some m1) (Ex.envAt 100) S0)) = 20) /\
  efAcOutW (state_of (onQuota (Some m2) (Ex.envAt 100) S0)) = 75 /\
  (efAcOutW (state_of (onQuota None (Ex.envAt 100) S0)) = efAcOutW S0 /\
   lastQuotaTS (state_of (onQuota None (Ex.envAt 100) S0)) = 100%Z).
Proof.
  intros m1 m2.
  destruct (onQuota_ingests (Some m1) (Ex.envAt 100) S0) as (_ & _ & H1).
  destruct (H1 m1 _ eq_refl eq_refl) as (Hhv & _ & _ & Hsb & _).
  destruct (onQuota_ingests (Some m2) (Ex.envAt 100) S0) as (_ & _ & H2).
  destruct (H2 m2 _ eq_refl eq_refl) as (_ & Hsum & _ & _ & _).
  destruct (onQuota_ingests None (Ex.envAt 100) S0) as (Hts & Hbad & _).
  split; [split|split].
  - apply (Hhv (-180.5)). reflexivity.
  - apply (Hsb 12); reflexivity.
  - apply (Hsum 75); [discriminate | reflexivity | discriminate].
  - split; [apply Hbad; exact Logic.I | exact Hts].
Defined.

(** C9 as stated fails for the second field name: a report of
    [powOutSumW = -50] is not stored as its absolute value 50 but as 0. *)
Lemma onQuota_second_field_counterexample :
  let s' := fst (step CFG (Ex.envAt 100)
                   (Ex.quota [("powOutSumW", JNum (-50))]) S0) in
  efAcOutW s' = 0 /\ ~ (efAcOutW s' == Qabs (-50)).
Proof.
  split; [reflexivity | discriminate].
Qed.
